(** * Streaming-event parsers of the frontend

    A shallow embedding of the two line parsers of the chat frontend,
    [src/frontend/src/services/strandsParser.js] (Converse-style events of
    Strands agents) and its LangGraph sibling (AIMessageChunk events), with
    the parts of the JavaScript runtime they rely on: strings,
    [String.prototype.trim], [JSON.parse], property reads with optional
    chaining, [ToBoolean], string conversion, and [try]/[catch]. *)

From Stdlib Require Import ZArith NArith List String Ascii Bool Lia DecimalString.
Import ListNotations.
Set Warnings "-register-all".
Open Scope string_scope.
Open Scope list_scope.

(** ** Strings

    A JavaScript string is a sequence of UTF-16 code units. *)

Definition codeunit := N.
Definition jsstring := list codeunit.

(** A literal of the development, one code unit per character. *)
Definition js (s : string) : jsstring := map N_of_ascii (list_ascii_of_string s).

Definition codeunit_eqb : codeunit -> codeunit -> bool := N.eqb.

Fixpoint jsstring_eqb (a b : jsstring) : bool :=
  match a, b with
  | [], [] => true
  | x :: a', y :: b' => codeunit_eqb x y && jsstring_eqb a' b'
  | _, _ => false
  end.

(** WhiteSpace and LineTerminator code points, the ones [trim] removes:
    TAB, LF, VT, FF, CR, SP, NBSP, ZWNBSP, the line and paragraph separators
    and the members of the Unicode space-separator category. *)
Definition isWhiteSpace (c : codeunit) : bool :=
  ((9 <=? c) && (c <=? 13) || (c =? 32) || (c =? 160) || (c =? 5760)
   || (8192 <=? c) && (c <=? 8202) || (c =? 8232) || (c =? 8233)
   || (c =? 8239) || (c =? 8287) || (c =? 12288) || (c =? 65279))%N.

Fixpoint trimStart (s : jsstring) : jsstring :=
  match s with
  | c :: s' => if isWhiteSpace c then trimStart s' else s
  | [] => []
  end.

Definition trimEnd (s : jsstring) : jsstring := rev (trimStart (rev s)).

(** [String.prototype.trim] *)
Definition trim (s : jsstring) : jsstring := trimEnd (trimStart s).

(** [String.prototype.startsWith] with a search string and no position. *)
Fixpoint startsWith (s search : jsstring) : bool :=
  match search, s with
  | [], _ => true
  | c :: search', d :: s' => codeunit_eqb c d && startsWith s' search'
  | _ :: _, [] => false
  end.

(** [String.prototype.substring] with a start index and no end: the start is
    clamped to the length of the string. *)
Definition substring (start : nat) (s : jsstring) : jsstring := skipn start s.

(** ** Numbers

    A JSON number literal denotes the IEEE 754 binary64 value nearest to
    its decimal value (ties to even). Only what the parsers can observe of a
    number is modelled: whether it is zero, and its string conversion. *)

Module Number.
Open Scope Z_scope.

(** [Finite neg m e] is [m * 2^e] with [2^52 <= m < 2^53], or with
    [e = -1074] and [0 < m < 2^52] for the subnormal values. *)
Inductive number :=
| Zero (neg : bool)
| Finite (neg : bool) (m e : Z)
| Infinity (neg : bool).

Definition eqb (x y : number) : bool :=
  match x, y with
  | Zero _, Zero _ => true
  | Finite a m e, Finite b m' e' => Bool.eqb a b && (m =? m') && (e =? e')
  | Infinity a, Infinity b => Bool.eqb a b
  | _, _ => false
  end.

(** The integer nearest to [n / d], ties to even. *)
Definition round_half_even (n d : Z) : Z :=
  let q := n / d in
  let r := n mod d in
  if 2 * r <? d then q
  else if d <? 2 * r then q + 1
  else if Z.even q then q else q + 1.

(** The binary64 value of the decimal [M * 10^E]. *)
Definition of_decimal (neg : bool) (M E : Z) : number :=
  if M <=? 0 then Zero neg else
  let num := if 0 <=? E then M * 10 ^ E else M in
  let den := if 0 <=? E then 1 else 10 ^ (- E) in
  let e0 := Z.log2 num - Z.log2 den in
  let ge_pow2 := if 0 <=? e0 then den * 2 ^ e0 <=? num
                 else den <=? num * 2 ^ (- e0) in
  let e2 := if ge_pow2 then e0 else e0 - 1 in
  let q := Z.max (e2 - 52) (-1074) in
  let m := if 0 <=? q then round_half_even num (den * 2 ^ q)
           else round_half_even (num * 2 ^ (- q)) den in
  if m =? 0 then Zero neg else
  let '(m, q) := if m =? 2 ^ 53 then (2 ^ 52, q + 1) else (m, q) in
  if 971 <? q then Infinity neg else Finite neg m q.

(** [num / den < 10^n] *)
Definition lt_pow10 (num den n : Z) : bool :=
  if 0 <=? n then num <? den * 10 ^ n else num * 10 ^ (- n) <? den.

(** The least [n' >= n] with [num / den < 10^n']. *)
Fixpoint find_exp10 (fuel : nat) (num den n : Z) : Z :=
  match fuel with
  | O => n
  | S f => if lt_pow10 num den n then n else find_exp10 f num den (n + 1)
  end.

Definition round_trips (m e s e10 : Z) : bool :=
  eqb (of_decimal false s e10) (Finite false m e).

(** The shortest decimal [s * 10^e10] that denotes [m * 2^e = num / den],
    and among the shortest the one nearest to it: with [k] digits the
    candidates are the two neighbours of [num / den] at scale [10^(n-k)]. *)
Fixpoint shortest (fuel : nat) (m e num den n k : Z) : Z * Z :=
  let e10 := n - k in
  let '(a, b) := if 0 <=? e10 then (num, den * 10 ^ e10)
                 else (num * 10 ^ (- e10), den) in
  let lo := a / b in
  let hi := lo + 1 in
  let nearest := round_half_even a b in
  match fuel with
  | O => (nearest, e10)
  | S f =>
      match round_trips m e lo e10, round_trips m e hi e10 with
      | true, true => (nearest, e10)
      | true, false => (lo, e10)
      | false, true => (hi, e10)
      | false, false => shortest f m e num den n (k + 1)
      end
  end.

Fixpoint strip_zeros (fuel : nat) (s e10 : Z) : Z * Z :=
  match fuel with
  | O => (s, e10)
  | S f => if (0 <? s) && (s mod 10 =? 0) then strip_zeros f (s / 10) (e10 + 1)
           else (s, e10)
  end.

Definition digits (z : Z) : jsstring :=
  js (NilEmpty.string_of_uint (N.to_uint (Z.to_N z))).

Definition zeros (n : Z) : jsstring := repeat 48%N (Z.to_nat n).

(** [Number::toString] in radix 10. *)
Definition toString (x : number) : jsstring :=
  match x with
  | Zero _ => js "0"
  | Infinity neg => (if neg then js "-" else []) ++ js "Infinity"
  | Finite neg m e =>
      let num := if 0 <=? e then m * 2 ^ e else m in
      let den := if 0 <=? e then 1 else 2 ^ (- e) in
      let n0 := find_exp10 650 num den (-330) in
      let '(s0, e0) := shortest 16 m e num den n0 1 in
      let '(s, e10) := strip_zeros 20 s0 e0 in
      let ds := digits s in
      let k := Z.of_nat (List.length ds) in
      let n := e10 + k in
      (if neg then js "-" else []) ++
      (if (-5 <=? n) && (n <=? 21) then
         if k <=? n then ds ++ zeros (n - k)
         else if 0 <? n then
           firstn (Z.to_nat n) ds ++ js "." ++ skipn (Z.to_nat n) ds
         else js "0." ++ zeros (- n) ++ ds
       else
         let exponentSign := if n <? 0 then js "-" else js "+" in
         (if k =? 1 then ds else firstn 1 ds ++ js "." ++ skipn 1 ds)
         ++ js "e" ++ exponentSign ++ digits (Z.abs (n - 1)))
  end.

(** [ToBoolean] of a number: zero is falsy (a JSON literal is never NaN). *)
Definition toBoolean (x : number) : bool :=
  match x with
  | Zero _ => false
  | _ => true
  end.

End Number.

(** ** Values

    The values the parsers handle: [undefined] and what [JSON.parse]
    builds. An object is the list of its own properties, each key once. *)

Inductive value :=
| Undefined
| Null
| Bool (b : bool)
| Num (x : Number.number)
| Str (s : jsstring)
| Arr (elements : list value)
| Obj (properties : list (jsstring * value)).

Inductive exn :=
| SyntaxError
| TypeError
| Thrown (payload : value).

(** The outcome of evaluating an expression or a call. *)
Inductive completion (A : Type) :=
| Normal (a : A)
| Abrupt (e : exn).
Arguments Normal {A} a.
Arguments Abrupt {A} e.

Definition cbind {A B} (c : completion A) (k : A -> completion B) : completion B :=
  match c with
  | Normal a => k a
  | Abrupt e => Abrupt e
  end.

Fixpoint lookup (key : jsstring) (properties : list (jsstring * value)) : option value :=
  match properties with
  | [] => None
  | (k, v) :: rest => if jsstring_eqb k key then Some v else lookup key rest
  end.

(** [CreateDataProperty]: a repeated key overwrites the earlier value. *)
Fixpoint define (key : jsstring) (v : value) (properties : list (jsstring * value))
  : list (jsstring * value) :=
  match properties with
  | [] => [(key, v)]
  | (k, w) :: rest =>
      if jsstring_eqb k key then (k, v) :: rest else (k, w) :: define key v rest
  end.

(** A read [v.key] of a value that is neither [undefined] nor [null]. The
    parsers read the keys event, messageStart, role, contentBlockDelta,
    delta, text, type and content only; no built-in prototype defines any of
    them, so a read from a primitive, from an array, or of an absent key
    is [undefined]. *)
Definition get_own (v : value) (key : jsstring) : value :=
  match v with
  | Obj properties =>
      match lookup key properties with
      | Some w => w
      | None => Undefined
      end
  | _ => Undefined
  end.

(** [v.key]: a read from [undefined] or [null] throws a TypeError. *)
Definition get (v : value) (key : string) : completion value :=
  match v with
  | Undefined | Null => Abrupt TypeError
  | _ => Normal (get_own v (js key))
  end.

(** [v?.key] *)
Definition get_optional (v : value) (key : string) : value :=
  match v with
  | Undefined | Null => Undefined
  | _ => get_own v (js key)
  end.

Definition ToBoolean (v : value) : bool :=
  match v with
  | Undefined | Null => false
  | Bool b => b
  | Num x => Number.toBoolean x
  | Str s => negb (jsstring_eqb s [])
  | Arr _ | Obj _ => true
  end.

(** [v === 'literal'] *)
Definition strictEquals (v : value) (literal : string) : bool :=
  match v with
  | Str s => jsstring_eqb s (js literal)
  | _ => false
  end.

Definition Array_isArray (v : value) : bool :=
  match v with
  | Arr _ => true
  | _ => false
  end.

(** The elements of an array; applied under an [Array.isArray] guard only. *)
Definition elements_of (v : value) : list value :=
  match v with
  | Arr elements => elements
  | _ => []
  end.

(** [ToString], with [ToPrimitive] for arrays and objects. An array is
    joined with commas, [undefined] and [null] elements giving the empty
    string. An object built by [JSON.parse] has [Object.prototype] as its
    prototype: it converts to [[object Object]], unless an own property
    named toString shadows the inherited method; the own value is never
    callable and [valueOf] returns the object itself, so the conversion
    throws a TypeError. *)
Fixpoint ToString (v : value) : completion jsstring :=
  match v with
  | Undefined => Normal (js "undefined")
  | Null => Normal (js "null")
  | Bool true => Normal (js "true")
  | Bool false => Normal (js "false")
  | Num x => Normal (Number.toString x)
  | Str s => Normal s
  | Arr elements =>
      (fix join (l : list value) : completion jsstring :=
         match l with
         | [] => Normal []
         | x :: l' =>
             cbind (match x with
                    | Undefined | Null => Normal []
                    | _ => ToString x
                    end)
               (fun sx =>
                  match l' with
                  | [] => Normal sx
                  | _ :: _ => cbind (join l') (fun sr => Normal (sx ++ js "," ++ sr))
                  end)
         end) elements
  | Obj properties =>
      match lookup (js "toString") properties with
      | Some _ => Abrupt TypeError
      | None => Normal (js "[object Object]")
      end
  end.

(** [Array.prototype.join] *)
Fixpoint Array_join (separator : jsstring) (l : list value) : completion jsstring :=
  match l with
  | [] => Normal []
  | x :: l' =>
      cbind (match x with
             | Undefined | Null => Normal []
             | _ => ToString x
             end)
        (fun sx =>
           match l' with
           | [] => Normal sx
           | _ :: _ => cbind (Array_join separator l')
                         (fun sr => Normal (sx ++ separator ++ sr))
           end)
  end.

(** [Array.prototype.filter] with a callback that may throw. *)
Fixpoint Array_filter (callbackFn : value -> completion value) (l : list value)
  : completion (list value) :=
  match l with
  | [] => Normal []
  | x :: l' =>
      cbind (callbackFn x) (fun selected =>
      cbind (Array_filter callbackFn l') (fun kept =>
      Normal (if ToBoolean selected then x :: kept else kept)))
  end.

(** [Array.prototype.map] with a callback that may throw. *)
Fixpoint Array_map (callbackFn : value -> completion value) (l : list value)
  : completion (list value) :=
  match l with
  | [] => Normal []
  | x :: l' =>
      cbind (callbackFn x) (fun y =>
      cbind (Array_map callbackFn l') (fun ys => Normal (y :: ys)))
  end.

(** [s + v] with a string on the left: the right operand is converted to a
    primitive and then to a string. *)
Definition add (s : jsstring) (v : value) : completion jsstring :=
  cbind (ToString v) (fun t => Normal (s ++ t)).

(** ** JSON.parse

    A recursive-descent reader of the JSON grammar. [fuel] bounds the
    nesting of the recursion; [JSON_parse] supplies enough of it. *)

Module JSON.

Inductive parsed (A : Type) :=
| Parsed (a : A) (rest : jsstring)
| Malformed
| OutOfFuel.
Arguments Parsed {A} a rest.
Arguments Malformed {A}.
Arguments OutOfFuel {A}.

Definition pmap {A B} (f : A -> B) (p : parsed A) : parsed B :=
  match p with
  | Parsed a rest => Parsed (f a) rest
  | Malformed => Malformed
  | OutOfFuel => OutOfFuel
  end.

(** JSON whitespace: TAB, LF, CR and SP. *)
Definition isJSONWhiteSpace (c : codeunit) : bool :=
  ((c =? 9) || (c =? 10) || (c =? 13) || (c =? 32))%N.

Fixpoint skip_ws (s : jsstring) : jsstring :=
  match s with
  | c :: s' => if isJSONWhiteSpace c then skip_ws s' else s
  | [] => []
  end.

Definition isDigit (c : codeunit) : bool := ((48 <=? c) && (c <=? 57))%N.

Definition hex_value (c : codeunit) : option N :=
  (if (48 <=? c) && (c <=? 57) then Some (c - 48)
   else if (65 <=? c) && (c <=? 70) then Some (c - 55)
   else if (97 <=? c) && (c <=? 102) then Some (c - 87)
   else None)%N.

Definition hex4 (a b c d : codeunit) : option codeunit :=
  match hex_value a, hex_value b, hex_value c, hex_value d with
  | Some x, Some y, Some z, Some w => Some (((x * 16 + y) * 16 + z) * 16 + w)%N
  | _, _, _, _ => None
  end.

(** The characters of a string after its opening quotation mark, up to
    and including the closing one. *)
Fixpoint parse_string (s : jsstring) (acc : jsstring) : parsed jsstring :=
  match s with
  | [] => Malformed
  | c :: rest =>
      if (c =? 34)%N then Parsed (rev acc) rest
      else if (c =? 92)%N then
        match rest with
        | [] => Malformed
        | e :: rest' =>
            if (e =? 34)%N then parse_string rest' (34%N :: acc)
            else if (e =? 92)%N then parse_string rest' (92%N :: acc)
            else if (e =? 47)%N then parse_string rest' (47%N :: acc)
            else if (e =? 98)%N then parse_string rest' (8%N :: acc)
            else if (e =? 102)%N then parse_string rest' (12%N :: acc)
            else if (e =? 110)%N then parse_string rest' (10%N :: acc)
            else if (e =? 114)%N then parse_string rest' (13%N :: acc)
            else if (e =? 116)%N then parse_string rest' (9%N :: acc)
            else if (e =? 117)%N then
              match rest' with
              | h1 :: h2 :: h3 :: h4 :: rest'' =>
                  match hex4 h1 h2 h3 h4 with
                  | Some u => parse_string rest'' (u :: acc)
                  | None => Malformed
                  end
              | _ => Malformed
              end
            else Malformed
        end
      else if (c <? 32)%N then Malformed
      else parse_string rest (c :: acc)
  end.

(** A run of decimal digits: its value after [acc], how many there are,
    and what follows. *)
Fixpoint take_digits (s : jsstring) (acc : Z) (count : Z) : Z * Z * jsstring :=
  match s with
  | c :: s' =>
      if isDigit c then take_digits s' (10 * acc + (Z.of_N c - 48))%Z (count + 1)%Z
      else (acc, count, s)
  | [] => (acc, count, s)
  end.

(** A number: an optional minus sign, an integer part without a leading
    zero, an optional fraction and an optional exponent. *)
Definition parse_number (s : jsstring) : parsed Number.number :=
  let '(neg, s1) := match s with
                    | c :: s' => if (c =? 45)%N then (true, s') else (false, s)
                    | [] => (false, s)
                    end in
  let int_part :=
    match s1 with
    | c :: s' =>
        if (c =? 48)%N then Some (0%Z, s')
        else if isDigit c then
          let '(i, _, s2) := take_digits s1 0%Z 0%Z in Some (i, s2)
        else None
    | [] => None
    end in
  match int_part with
  | None => Malformed
  | Some (i, s2) =>
      let fraction :=
        match s2 with
        | c :: s' =>
            if (c =? 46)%N then
              let '(m, n, s3) := take_digits s' i 0%Z in
              if (n =? 0)%Z then None else Some (m, n, s3)
            else Some (i, 0%Z, s2)
        | [] => Some (i, 0%Z, s2)
        end in
      match fraction with
      | None => Malformed
      | Some (m, n, s3) =>
          let exponent :=
            match s3 with
            | c :: s' =>
                if (c =? 101)%N || (c =? 69)%N then
                  let '(eneg, s4) :=
                    match s' with
                    | d :: s'' => if (d =? 45)%N then (true, s'')
                                  else if (d =? 43)%N then (false, s'')
                                  else (false, s')
                    | [] => (false, s')
                    end in
                  let '(e, en, s5) := take_digits s4 0%Z 0%Z in
                  if (en =? 0)%Z then None
                  else Some (if eneg then (- e)%Z else e, s5)
                else Some (0%Z, s3)
            | [] => Some (0%Z, s3)
            end in
          match exponent with
          | None => Malformed
          | Some (e, s5) => Parsed (Number.of_decimal neg m (e - n)%Z) s5
          end
      end
  end.

Definition parse_literal (s : jsstring) : parsed value :=
  if startsWith s (js "true") then Parsed (Bool true) (skipn 4 s)
  else if startsWith s (js "false") then Parsed (Bool false) (skipn 5 s)
  else if startsWith s (js "null") then Parsed Null (skipn 4 s)
  else Malformed.

Fixpoint parse_value (fuel : nat) (s : jsstring) {struct fuel} : parsed value :=
  match fuel with
  | O => OutOfFuel
  | S fuel =>
      match skip_ws s with
      | [] => Malformed
      | c :: rest =>
          if (c =? 91)%N then
            match skip_ws rest with
            | [] => Malformed
            | d :: rest' =>
                if (d =? 93)%N then Parsed (Arr []) rest'
                else parse_elements fuel (d :: rest') []
            end
          else if (c =? 123)%N then
            match skip_ws rest with
            | [] => Malformed
            | d :: rest' =>
                if (d =? 125)%N then Parsed (Obj []) rest'
                else parse_members fuel (d :: rest') []
            end
          else if (c =? 34)%N then pmap Str (parse_string rest [])
          else if (c =? 45)%N || isDigit c then pmap Num (parse_number (c :: rest))
          else parse_literal (c :: rest)
      end
  end

with parse_elements (fuel : nat) (s : jsstring) (acc : list value) {struct fuel}
  : parsed value :=
  match fuel with
  | O => OutOfFuel
  | S fuel =>
      match parse_value fuel s with
      | Parsed v rest =>
          match skip_ws rest with
          | [] => Malformed
          | c :: rest' =>
              if (c =? 44)%N then parse_elements fuel rest' (v :: acc)
              else if (c =? 93)%N then Parsed (Arr (rev (v :: acc))) rest'
              else Malformed
          end
      | Malformed => Malformed
      | OutOfFuel => OutOfFuel
      end
  end

with parse_members (fuel : nat) (s : jsstring) (acc : list (jsstring * value))
  {struct fuel} : parsed value :=
  match fuel with
  | O => OutOfFuel
  | S fuel =>
      match skip_ws s with
      | [] => Malformed
      | q :: rest =>
          if (q =? 34)%N then
            match parse_string rest [] with
            | Parsed key rest1 =>
                match skip_ws rest1 with
                | [] => Malformed
                | c :: rest2 =>
                    if (c =? 58)%N then
                      match parse_value fuel rest2 with
                      | Parsed v rest3 =>
                          match skip_ws rest3 with
                          | [] => Malformed
                          | d :: rest4 =>
                              if (d =? 44)%N then
                                parse_members fuel rest4 (define key v acc)
                              else if (d =? 125)%N then
                                Parsed (Obj (define key v acc)) rest4
                              else Malformed
                          end
                      | Malformed => Malformed
                      | OutOfFuel => OutOfFuel
                      end
                    else Malformed
                end
            | Malformed => Malformed
            | OutOfFuel => OutOfFuel
            end
          else Malformed
      end
  end.

Definition enough_fuel (text : jsstring) : nat := 2 * List.length text + 1.

(** [JSON.parse]: one value, surrounded by whitespace only. [None] stands for
    the SyntaxError thrown on any other text. *)
Definition parse (text : jsstring) : option value :=
  match parse_value (enough_fuel text) text with
  | Parsed v rest =>
      match skip_ws rest with
      | [] => Some v
      | _ :: _ => None
      end
  | _ => None
  end.

End JSON.

(** JSON text written with apostrophes in place of quotation marks, for the
    examples of this development. *)
Definition json_text (s : string) : jsstring :=
  map (fun c => if (c =? 39)%N then 34%N else c) (js s).

(** [JSON.parse] as the parsers call it. *)
Definition JSON_parse (text : jsstring) : completion value :=
  match JSON.parse text with
  | Some v => Normal v
  | None => Abrupt SyntaxError
  end.

(** ** Effects

    A call of a parser can do two things to the outside: invoke
    [updateCallback], which runs arbitrary code of the caller and either
    returns or throws, and write to the console. The caller's side is a
    state of type [World] that the callback may change; what the parser
    itself did is recorded in a trace. *)

Inductive event :=
| Call (argument : jsstring)
| ConsoleDebug (message data : jsstring).

Section Effects.

Context {World : Type}.

Definition callback := jsstring -> World -> completion unit * World.

Record outcome (A : Type) := Outcome {
  result : completion A;
  world : World;
  trace : list event
}.
Arguments Outcome {A} result world trace.
Arguments result {A} o.
Arguments world {A} o.
Arguments trace {A} o.

Definition M (A : Type) := World -> outcome A.

Definition ret {A} (a : A) : M A := fun w => Outcome (Normal a) w [].

Definition bind {A B} (m : M A) (k : A -> M B) : M B :=
  fun w =>
    let o := m w in
    match result o with
    | Normal a =>
        let o' := k a (world o) in
        Outcome (result o') (world o') (trace o ++ trace o')
    | Abrupt e => Outcome (Abrupt e) (world o) (trace o)
    end.

Definition lift {A} (c : completion A) : M A := fun w => Outcome c w [].

(** [try { body } catch { handler }] *)
Definition try_catch {A} (body handler : M A) : M A :=
  fun w =>
    let o := body w in
    match result o with
    | Normal a => o
    | Abrupt _ =>
        let o' := handler (world o) in
        Outcome (result o') (world o') (trace o ++ trace o')
    end.

(** [f(argument)], the value returned by [f] being dropped. *)
Definition call (f : callback) (argument : jsstring) : M unit :=
  fun w => let '(r, w') := f argument w in Outcome r w' [Call argument].

(** [console.debug(message, data)] *)
Definition console_debug (message data : jsstring) : M unit :=
  fun w => Outcome (Normal tt) w [ConsoleDebug message data].

End Effects.

Arguments callback World : clear implicits.
Arguments outcome World A : clear implicits.
Arguments M World A : clear implicits.
Arguments Outcome {World A} result world trace.
Arguments result {World A} o.
Arguments world {World A} o.
Arguments trace {World A} o.

Declare Scope js_scope.
Delimit Scope js_scope with jsm.
Notation "x <- m ;; k" := (bind m (fun x => k))
  (at level 61, m at next level, right associativity) : js_scope.
Notation "m ;; k" := (bind m (fun _ => k))
  (at level 61, right associativity) : js_scope.

(** The arguments with which [updateCallback] was invoked, in order. *)
Fixpoint calls (t : list event) : list jsstring :=
  match t with
  | [] => []
  | Call s :: t' => s :: calls t'
  | ConsoleDebug _ _ :: t' => calls t'
  end.

(** The two-character separator ["\n\n"]. *)
Definition blank_line : jsstring := [10%N; 10%N].

Definition failed_to_parse : jsstring := js "Failed to parse streaming event:".

(** ** strandsParser.js *)

Module Strands.
Section Parser.
Context {World : Type}.
Open Scope js_scope.

Definition parseStreamingChunk (line currentCompletion : jsstring)
    (updateCallback : callback World) : M World jsstring :=
  (* Ignore empty lines *)
  if negb (ToBoolean (Str line)) || negb (ToBoolean (Str (trim line))) then
    ret currentCompletion
  else
  (* Strip "data: " prefix from SSE format *)
  if negb (startsWith line (js "data: ")) then ret currentCompletion else
  let data := trim (substring 6 line) in
  (* Ignore empty data *)
  if negb (ToBoolean (Str data)) then ret currentCompletion else
  (* Parse JSON events *)
  try_catch
    (json <- lift (JSON_parse data) ;;
     (* Handle message start - add newline for new assistant message *)
     event <- lift (get json "event") ;;
     if strictEquals
          (get_optional (get_optional event "messageStart") "role") "assistant"
     then
       if ToBoolean (Str currentCompletion) then
         let newCompletion := currentCompletion ++ blank_line in
         call updateCallback newCompletion ;;
         ret newCompletion
       else ret currentCompletion
     else
     (* Extract streaming text from contentBlockDelta event *)
     event <- lift (get json "event") ;;
     if ToBoolean
          (get_optional
             (get_optional (get_optional event "contentBlockDelta") "delta")
             "text")
     then
       event <- lift (get json "event") ;;
       contentBlockDelta <- lift (get event "contentBlockDelta") ;;
       delta <- lift (get contentBlockDelta "delta") ;;
       text <- lift (get delta "text") ;;
       newCompletion <- lift (add currentCompletion text) ;;
       call updateCallback newCompletion ;;
       ret newCompletion
     else
     (* All other events are ignored (tool messages, metadata, etc.) *)
     ret currentCompletion)
    ((* If JSON parsing fails, skip this line *)
     console_debug failed_to_parse data ;;
     ret currentCompletion).

End Parser.
End Strands.

(** ** The LangGraph parser *)

Module LangGraph.
Section Parser.
Context {World : Type}.
Open Scope js_scope.

(** [block => block.type === 'text' && block.text] *)
Definition is_text_block (block : value) : completion value :=
  cbind (get block "type") (fun type_ =>
  if strictEquals type_ "text" then get block "text" else Normal (Bool false)).

(** [block => block.text] *)
Definition block_text (block : value) : completion value := get block "text".

Definition parseStreamingChunk (line currentCompletion : jsstring)
    (updateCallback : callback World) : M World jsstring :=
  (* Ignore empty lines *)
  if negb (ToBoolean (Str line)) || negb (ToBoolean (Str (trim line))) then
    ret currentCompletion
  else
  (* Strip "data: " prefix from SSE format *)
  if negb (startsWith line (js "data: ")) then ret currentCompletion else
  let data := trim (substring 6 line) in
  (* Ignore empty data *)
  if negb (ToBoolean (Str data)) then ret currentCompletion else
  (* Parse JSON events *)
  try_catch
    (json <- lift (JSON_parse data) ;;
     (* Handle LangGraph format: AIMessageChunk only *)
     type_ <- lift (get json "type") ;;
     isChunk <- (if strictEquals type_ "AIMessageChunk" then
                   content <- lift (get json "content") ;;
                   ret (Array_isArray content)
                 else ret false) ;;
     if isChunk : bool then
       content <- lift (get json "content") ;;
       (* Handle empty content array (message start) *)
       if Nat.eqb (List.length (elements_of content)) 0 then
         if ToBoolean (Str currentCompletion) then
           let newCompletion := currentCompletion ++ blank_line in
           call updateCallback newCompletion ;;
           ret newCompletion
         else ret currentCompletion
       else
       (* Extract text from content blocks *)
       content <- lift (get json "content") ;;
       filtered <- lift (Array_filter is_text_block (elements_of content)) ;;
       mapped <- lift (Array_map block_text filtered) ;;
       textContent <- lift (Array_join [] mapped) ;;
       if ToBoolean (Str textContent) then
         let newCompletion := currentCompletion ++ textContent in
         call updateCallback newCompletion ;;
         ret newCompletion
       else
       (* All other events are ignored (tool messages, metadata, etc.) *)
       ret currentCompletion
     else
     (* All other events are ignored (tool messages, metadata, etc.) *)
     ret currentCompletion)
    ((* If JSON parsing fails, skip this line *)
     console_debug failed_to_parse data ;;
     ret currentCompletion).

End Parser.
End LangGraph.

(** Either parser, for the statements that hold of both. The caller picks
    one per session, by the configured backend; the specification calls
    the operation parseChunk. *)
Inductive adapter := Converse | LangGraphStyle.

Definition parseChunk {World : Type} (a : adapter)
  : jsstring -> jsstring -> callback World -> M World jsstring :=
  match a with
  | Converse => Strands.parseStreamingChunk
  | LangGraphStyle => LangGraph.parseStreamingChunk
  end.

(** A callback that appends its argument to the list of everything it was
    given, as a display that re-renders on every update does. *)
Definition recorder : callback (list jsstring) :=
  fun s shown => (Normal tt, shown ++ [s]).

(** A callback that throws on every invocation. *)
Definition thrower : callback (list jsstring) :=
  fun s shown => (Abrupt (Thrown (Str s)), shown ++ [s]).

(** ** A pure view of the parsers

    What a call decides before it touches the outside, and what carrying
    the decision out does. The parsers above are the embedding of the source;
    the view is what the proofs below reason with, once it is shown to agree
    with them ([strands_view], [langgraph_view]). *)

(** [Ignore]: return the buffer. [LogFailure]: an exception was caught
    before any callback; write to the console and return the buffer.
    [Update]: invoke the callback with the new buffer and return it. *)
Inductive action :=
| Ignore
| LogFailure (data : jsstring)
| Update (newCompletion data : jsstring).

Definition perform {World : Type} (currentCompletion : jsstring)
    (updateCallback : callback World) (a : action) : M World jsstring :=
  fun w =>
    match a with
    | Ignore => Outcome (Normal currentCompletion) w []
    | LogFailure data =>
        Outcome (Normal currentCompletion) w [ConsoleDebug failed_to_parse data]
    | Update newCompletion data =>
        match updateCallback newCompletion w with
        | (Normal _, w') => Outcome (Normal newCompletion) w' [Call newCompletion]
        | (Abrupt _, w') =>
            Outcome (Normal currentCompletion) w'
              [Call newCompletion; ConsoleDebug failed_to_parse data]
        end
    end.

(** The text a line carries after the prefix, when there is one. *)
Definition payload (line : jsstring) : option jsstring :=
  if startsWith line (js "data: ") then
    match trim (substring 6 line) with
    | [] => None
    | data => Some data
    end
  else None.

(** The JSON value a line carries, when its payload is valid JSON. *)
Definition decoded (line : jsstring) : option value :=
  match payload line with
  | Some data => JSON.parse data
  | None => None
  end.

(** The value at a field path, [undefined] when the path leaves the value. *)
Definition path (v : value) (keys : list string) : value :=
  fold_left get_optional keys v.

Definition nullish (v : value) : bool :=
  match v with
  | Undefined | Null => true
  | _ => false
  end.

Definition boundary_action (currentCompletion data : jsstring) : action :=
  match currentCompletion with
  | [] => Ignore
  | _ :: _ => Update (currentCompletion ++ blank_line) data
  end.

Definition append_action (currentCompletion data : jsstring)
    (text : completion jsstring) : action :=
  match text with
  | Normal t => Update (currentCompletion ++ t) data
  | Abrupt _ => LogFailure data
  end.

Definition strands_classify (json : value) (currentCompletion data : jsstring)
  : action :=
  if nullish json then LogFailure data
  else if strictEquals (path json ["event"; "messageStart"; "role"]) "assistant"
  then boundary_action currentCompletion data
  else
    let text := path json ["event"; "contentBlockDelta"; "delta"; "text"] in
    if ToBoolean text then append_action currentCompletion data (ToString text)
    else Ignore.

(** The blocks the LangGraph filter keeps. *)
Definition kept_block (block : value) : bool :=
  strictEquals (get_own block (js "type")) "text"
  && ToBoolean (get_own block (js "text")).

Definition kept_texts (content : list value) : list value :=
  map (fun block => get_own block (js "text")) (filter kept_block content).

Definition langgraph_classify (json : value) (currentCompletion data : jsstring)
  : action :=
  if nullish json then LogFailure data
  else if strictEquals (get_own json (js "type")) "AIMessageChunk" then
    match get_own json (js "content") with
    | Arr [] => boundary_action currentCompletion data
    | Arr content =>
        if existsb nullish content then LogFailure data
        else
          match Array_join [] (kept_texts content) with
          | Normal [] => Ignore
          | text => append_action currentCompletion data text
          end
    | _ => Ignore
    end
  else Ignore.

Definition view (a : adapter) (line currentCompletion : jsstring) : action :=
  match payload line with
  | None => Ignore
  | Some data =>
      match JSON.parse data with
      | None => LogFailure data
      | Some json =>
          match a with
          | Converse => strands_classify json currentCompletion data
          | LangGraphStyle => langgraph_classify json currentCompletion data
          end
      end
  end.

(** ** Vocabulary of the statements *)

(** A call that leaves everything as it was: the buffer is returned
    unchanged, the callback has not run, the caller's state is untouched. *)
Definition unchanged {World : Type} (currentCompletion : jsstring) (w : World)
    (o : outcome World jsstring) : Prop :=
  result o = Normal currentCompletion /\ calls (trace o) = [] /\ world o = w.

(** A call that invoked the callback once, with [newCompletion], and returns
    that value whenever the callback itself returns. *)
Definition updated {World : Type} (newCompletion : jsstring)
    (updateCallback : callback World) (w : World)
    (o : outcome World jsstring) : Prop :=
  calls (trace o) = [newCompletion]
  /\ world o = snd (updateCallback newCompletion w)
  /\ (fst (updateCallback newCompletion w) = Normal tt ->
      result o = Normal newCompletion).

(** The Converse boundary shape: [event.messageStart.role == "assistant"]. *)
Definition converse_boundary (json : value) : Prop :=
  path json ["event"; "messageStart"; "role"] = Str (js "assistant").

(** The value at [event.contentBlockDelta.delta.text]. *)
Definition delta_text (json : value) : value :=
  path json ["event"; "contentBlockDelta"; "delta"; "text"].

(** The LangGraph shape: [type == "AIMessageChunk"] with an array as
    [content]. *)
Definition langgraph_chunk (json : value) (content : list value) : Prop :=
  path json ["type"] = Str (js "AIMessageChunk")
  /\ path json ["content"] = Arr content.

(** The concatenation of a content array in the words of the
    specification: the blocks whose type is text and whose text is present,
    their text values in array order, nothing between them. *)
Definition spec_text_block (block : value) : bool :=
  strictEquals (path block ["type"]) "text"
  && negb (match path block ["text"] with Undefined => true | _ => false end).

Definition spec_text_value (block : value) : jsstring :=
  match path block ["text"] with
  | Str s => s
  | _ => []
  end.

Definition spec_concatenation (content : list value) : jsstring :=
  List.concat (map spec_text_value (filter spec_text_block content)).

(** A block whose text, when it has one, is a string. *)
Definition text_is_string (block : value) : Prop :=
  path block ["text"] = Undefined \/ exists s, path block ["text"] = Str s.

(** The claim that the callback runs exactly when the buffer changes, and
    with the returned value. *)
Definition callback_iff_changed {World : Type} (currentCompletion : jsstring)
    (o : outcome World jsstring) : Prop :=
  List.length (calls (trace o)) <= 1
  /\ (calls (trace o) <> [] <-> result o <> Normal currentCompletion)
  /\ (forall argument, In argument (calls (trace o)) ->
                       result o = Normal argument).

(** A callback that does nothing. *)
Definition quiet : callback unit := fun _ u => (Normal tt, u).

(** * Properties *)

(** ** The JSON reader *)

Module JSONFacts.
Import JSON.

Lemma skip_ws_length (s : jsstring) : List.length (skip_ws s) <= List.length s.
Proof.
  induction s as [|c s IH]; simpl; [lia|].
  destruct (isJSONWhiteSpace c); simpl; lia.
Qed.

Lemma skip_ws_cons (s : jsstring) c rest :
  skip_ws s = c :: rest -> List.length rest < List.length s.
Proof.
  intros H. pose proof (skip_ws_length s) as L. rewrite H in L. simpl in L. lia.
Qed.

Lemma parse_string_consumes :
  forall n s acc key rest,
    List.length s <= n ->
    parse_string s acc = Parsed key rest -> List.length rest < List.length s.
Proof.
  induction n as [|n IH]; intros s acc key rest Hn H.
  - destruct s; [discriminate | simpl in Hn; lia].
  - destruct s as [|c s]; [discriminate|].
    simpl in Hn. cbn [parse_string] in H.
    destruct (c =? 34)%N.
    { injection H as _ <-. simpl. lia. }
    destruct (c =? 92)%N.
    + destruct s as [|e s]; [discriminate|]. simpl in Hn.
      repeat match type of H with
             | (if ?b then _ else _) = _ =>
                 destruct b;
                 [ apply IH in H; simpl in *; lia | ]
             end.
      destruct (e =? 117)%N; [|discriminate].
      destruct s as [|h1 [|h2 [|h3 [|h4 s]]]]; try discriminate.
      destruct (hex4 h1 h2 h3 h4); [|discriminate].
      apply IH in H; simpl in *; lia.
    + destruct (c <? 32)%N; [discriminate|].
      apply IH in H; simpl in *; lia.
Qed.

Lemma parse_string_fuel :
  forall n s acc, List.length s <= n -> parse_string s acc <> OutOfFuel.
Proof.
  induction n as [|n IH]; intros s acc Hn.
  - destruct s; [discriminate | simpl in Hn; lia].
  - destruct s as [|c s]; [discriminate|].
    simpl in Hn. cbn [parse_string].
    destruct (c =? 34)%N; [discriminate|].
    destruct (c =? 92)%N.
    + destruct s as [|e s]; [discriminate|]. simpl in Hn.
      repeat match goal with
             | |- (if ?b then _ else _) <> _ =>
                 destruct b; [ apply IH; simpl in *; lia | ]
             end.
      destruct (e =? 117)%N; [|discriminate].
      destruct s as [|h1 [|h2 [|h3 [|h4 s]]]]; try discriminate.
      destruct (hex4 h1 h2 h3 h4); [|discriminate].
      apply IH; simpl in *; lia.
    + destruct (c <? 32)%N; [discriminate|].
      apply IH; simpl in *; lia.
Qed.

Lemma take_digits_length :
  forall s acc count v n rest,
    take_digits s acc count = (v, n, rest) -> List.length rest <= List.length s.
Proof.
  induction s as [|c s IH]; intros acc count v n rest H; simpl in H.
  - injection H as _ _ <-. simpl; lia.
  - destruct (isDigit c).
    + apply IH in H. simpl; lia.
    + injection H as _ _ <-. lia.
Qed.

Lemma parse_number_consumes :
  forall s x rest, parse_number s = Parsed x rest -> List.length rest < List.length s.
Proof.
  intros s x rest H. unfold parse_number in H.
  destruct (match s with
            | [] => (false, s)
            | c :: s' => if (c =? 45)%N then (true, s') else (false, s)
            end) as [neg s1] eqn:Hsign.
  assert (L1 : List.length s1 <= List.length s).
  { destruct s as [|c s']; [injection Hsign as _ <-; lia|].
    destruct (c =? 45)%N; injection Hsign as _ <-; simpl; lia. }
  destruct s1 as [|c s']; [discriminate|].
  assert (Hint : forall i s2,
             (if (c =? 48)%N then Some (0%Z, s')
              else if isDigit c then
                let '(i, _, s2) := take_digits (c :: s') 0%Z 0%Z in Some (i, s2)
              else None) = Some (i, s2) ->
             List.length s2 < List.length (c :: s')).
  { intros i s2 E. destruct (c =? 48)%N.
    - injection E as _ <-. simpl; lia.
    - destruct (isDigit c) eqn:Hd; [|discriminate].
      cbn [take_digits] in E. rewrite Hd in E.
      destruct (take_digits s' _ _) as [[i' n'] s2'] eqn:Ht.
      injection E as _ <-. apply take_digits_length in Ht. simpl; lia. }
  destruct (if (c =? 48)%N then _ else _) as [[i s2]|]; [|discriminate].
  specialize (Hint i s2 eq_refl).
  match type of H with
  | match ?f with _ => _ end = _ => destruct f as [[[m n] s3]|] eqn:Hf; [|discriminate]
  end.
  assert (L3 : List.length s3 <= List.length s2).
  { destruct s2 as [|d s2']; [injection Hf as _ _ <-; lia|].
    destruct (d =? 46)%N.
    - destruct (take_digits s2' i 0%Z) as [[m' n'] s3'] eqn:Ht.
      destruct (n' =? 0)%Z; [discriminate|].
      injection Hf as _ _ <-. apply take_digits_length in Ht. simpl; lia.
    - injection Hf as _ _ <-. lia. }
  match type of H with
  | match ?f with _ => _ end = _ => destruct f as [[e s5]|] eqn:He; [|discriminate]
  end.
  injection H as _ <-.
  enough (List.length s5 <= List.length s3) by lia.
  destruct s3 as [|d s3']; [injection He as _ <-; lia|].
  destruct ((d =? 101)%N || (d =? 69)%N).
  - destruct (match s3' with
              | [] => (false, s3')
              | d0 :: s'' => _
              end) as [eneg s4] eqn:Hs4.
    assert (List.length s4 <= List.length s3').
    { destruct s3' as [|d0 s'']; [injection Hs4 as _ <-; lia|].
      destruct (d0 =? 45)%N; [injection Hs4 as _ <-; simpl; lia|].
      destruct (d0 =? 43)%N; injection Hs4 as _ <-; simpl; lia. }
    destruct (take_digits s4 0%Z 0%Z) as [[e' en] s5'] eqn:Ht.
    destruct (en =? 0)%Z; [discriminate|].
    injection He as _ <-. apply take_digits_length in Ht. simpl; lia.
  - injection He as _ <-. lia.
Qed.

Lemma parse_number_fuel : forall s, parse_number s <> OutOfFuel.
Proof.
  intros s. unfold parse_number.
  repeat match goal with
         | |- context [match ?x with _ => _ end] => destruct x
         | |- context [let '(_, _) := ?x in _] => destruct x
         end; discriminate.
Qed.


Lemma startsWith_length :
  forall search s, startsWith s search = true -> List.length search <= List.length s.
Proof.
  induction search as [|c search IH]; intros s H; simpl; [lia|].
  destruct s as [|d s]; [discriminate|]. simpl in H.
  apply andb_true_iff in H as [_ H]. apply IH in H. simpl; lia.
Qed.

Lemma parse_literal_consumes :
  forall s v rest, parse_literal s = Parsed v rest -> List.length rest < List.length s.
Proof.
  intros s v rest H. unfold parse_literal in H.
  repeat match type of H with
         | (if startsWith s ?lit then Parsed _ ?r else _) = _ =>
             let E := fresh "E" in
             destruct (startsWith s lit) eqn:E;
             [ apply startsWith_length in E; replace rest with r by congruence;
               rewrite length_skipn; simpl in E; lia | ]
         end.
  discriminate.
Qed.

Lemma parse_literal_fuel : forall s, parse_literal s <> OutOfFuel.
Proof.
  intros s. unfold parse_literal.
  repeat match goal with
         | |- context [if ?b then _ else _] => destruct b
         end; discriminate.
Qed.

Lemma parse_value_eq fuel s :
  parse_value (S fuel) s =
  match skip_ws s with
  | [] => Malformed
  | c :: rest =>
      if (c =? 91)%N then
        match skip_ws rest with
        | [] => Malformed
        | d :: rest' =>
            if (d =? 93)%N then Parsed (Arr []) rest'
            else parse_elements fuel (d :: rest') []
        end
      else if (c =? 123)%N then
        match skip_ws rest with
        | [] => Malformed
        | d :: rest' =>
            if (d =? 125)%N then Parsed (Obj []) rest'
            else parse_members fuel (d :: rest') []
        end
      else if (c =? 34)%N then pmap Str (parse_string rest [])
      else if (c =? 45)%N || isDigit c then pmap Num (parse_number (c :: rest))
      else parse_literal (c :: rest)
  end.
Proof. reflexivity. Qed.

Lemma pmap_consumes {A B} (f : A -> B) (p : parsed A) (n : nat) :
  (forall a rest, p = Parsed a rest -> List.length rest < n) ->
  forall b rest, pmap f p = Parsed b rest -> List.length rest < n.
Proof.
  intros H b rest E. destruct p; try discriminate.
  injection E as _ <-. eauto.
Qed.

(** A successful parse consumes at least one code unit. *)
Lemma parse_consumes :
  forall fuel,
    (forall s v rest,
        parse_value fuel s = Parsed v rest -> List.length rest < List.length s) /\
    (forall s acc v rest,
        parse_elements fuel s acc = Parsed v rest -> List.length rest < List.length s) /\
    (forall s acc v rest,
        parse_members fuel s acc = Parsed v rest -> List.length rest < List.length s).
Proof.
  induction fuel as [|fuel (IHv & IHe & IHm)].
  - repeat split; intros; discriminate.
  - repeat split.
    + intros s v rest H. rewrite parse_value_eq in H.
      destruct (skip_ws s) as [|c r] eqn:Hs; [discriminate|].
      apply skip_ws_cons in Hs.
      destruct (c =? 91)%N.
      { destruct (skip_ws r) as [|d r'] eqn:Hr; [discriminate|].
        pose proof (skip_ws_length r) as Lr. rewrite Hr in Lr.
        destruct (d =? 93)%N.
        - injection H as _ <-. simpl in Lr. lia.
        - apply IHe in H. lia. }
      destruct (c =? 123)%N.
      { destruct (skip_ws r) as [|d r'] eqn:Hr; [discriminate|].
        pose proof (skip_ws_length r) as Lr. rewrite Hr in Lr.
        destruct (d =? 125)%N.
        - injection H as _ <-. simpl in Lr. lia.
        - apply IHm in H. lia. }
      destruct (c =? 34)%N.
      { eapply pmap_consumes in H; [|intros a r0 E;
          apply (parse_string_consumes _ _ _ _ _ (le_n _)) in E; exact E]. lia. }
      destruct ((c =? 45)%N || isDigit c).
      { eapply pmap_consumes in H; [|intros a r0 E;
          apply parse_number_consumes in E; exact E]. simpl in H. lia. }
      apply parse_literal_consumes in H. simpl in H. lia.
    + intros s acc v rest H. cbn [parse_elements] in H.
      destruct (parse_value fuel s) as [x r| |] eqn:Hv; try discriminate.
      apply IHv in Hv.
      destruct (skip_ws r) as [|c r'] eqn:Hr; [discriminate|].
      apply skip_ws_cons in Hr.
      destruct (c =? 44)%N; [apply IHe in H; lia|].
      destruct (c =? 93)%N; [|discriminate].
      injection H as _ <-. lia.
    + intros s acc v rest H. cbn [parse_members] in H.
      destruct (skip_ws s) as [|q r] eqn:Hs; [discriminate|].
      apply skip_ws_cons in Hs.
      destruct (q =? 34)%N; [|discriminate].
      destruct (parse_string r []) as [key r1| |] eqn:Hk; try discriminate.
      apply (parse_string_consumes _ _ _ _ _ (le_n _)) in Hk.
      destruct (skip_ws r1) as [|c r2] eqn:Hr1; [discriminate|].
      apply skip_ws_cons in Hr1.
      destruct (c =? 58)%N; [|discriminate].
      destruct (parse_value fuel r2) as [x r3| |] eqn:Hv; try discriminate.
      apply IHv in Hv.
      destruct (skip_ws r3) as [|d r4] eqn:Hr3; [discriminate|].
      apply skip_ws_cons in Hr3.
      destruct (d =? 44)%N; [apply IHm in H; lia|].
      destruct (d =? 125)%N; [|discriminate].
      injection H as _ <-. lia.
Qed.

Lemma pmap_fuel {A B} (f : A -> B) (p : parsed A) :
  p <> OutOfFuel -> pmap f p <> OutOfFuel.
Proof. destruct p; simpl; congruence. Qed.

(** Two units of fuel for each code unit of the text are enough. *)
Lemma parse_fuel :
  forall fuel,
    (forall s, 2 * List.length s + 1 <= fuel -> parse_value fuel s <> OutOfFuel) /\
    (forall s acc, 2 * List.length s + 2 <= fuel ->
                   parse_elements fuel s acc <> OutOfFuel) /\
    (forall s acc, 2 * List.length s + 2 <= fuel ->
                   parse_members fuel s acc <> OutOfFuel).
Proof.
  induction fuel as [|fuel (IHv & IHe & IHm)].
  - repeat split; intros; lia.
  - repeat split.
    + intros s Hf. rewrite parse_value_eq.
      destruct (skip_ws s) as [|c r] eqn:Hs; [discriminate|].
      apply skip_ws_cons in Hs.
      destruct (c =? 91)%N.
      { destruct (skip_ws r) as [|d r'] eqn:Hr; [discriminate|].
        pose proof (skip_ws_length r) as Lr. rewrite Hr in Lr.
        destruct (d =? 93)%N; [discriminate|]. apply IHe. lia. }
      destruct (c =? 123)%N.
      { destruct (skip_ws r) as [|d r'] eqn:Hr; [discriminate|].
        pose proof (skip_ws_length r) as Lr. rewrite Hr in Lr.
        destruct (d =? 125)%N; [discriminate|]. apply IHm. lia. }
      destruct (c =? 34)%N.
      { apply pmap_fuel. apply (parse_string_fuel _ _ _ (le_n _)). }
      destruct ((c =? 45)%N || isDigit c).
      { apply pmap_fuel, parse_number_fuel. }
      apply parse_literal_fuel.
    + intros s acc Hf. cbn [parse_elements].
      destruct (parse_value fuel s) as [x r| |] eqn:Hv.
      * apply (proj1 (parse_consumes fuel)) in Hv.
        destruct (skip_ws r) as [|c r'] eqn:Hr; [discriminate|].
        apply skip_ws_cons in Hr.
        destruct (c =? 44)%N; [apply IHe; lia|].
        destruct (c =? 93)%N; discriminate.
      * discriminate.
      * exfalso. revert Hv. apply IHv. lia.
    + intros s acc Hf. cbn [parse_members].
      destruct (skip_ws s) as [|q r] eqn:Hs; [discriminate|].
      apply skip_ws_cons in Hs.
      destruct (q =? 34)%N; [|discriminate].
      destruct (parse_string r []) as [key r1| |] eqn:Hk; try discriminate.
      * apply (parse_string_consumes _ _ _ _ _ (le_n _)) in Hk.
        destruct (skip_ws r1) as [|c r2] eqn:Hr1; [discriminate|].
        apply skip_ws_cons in Hr1.
        destruct (c =? 58)%N; [|discriminate].
        destruct (parse_value fuel r2) as [x r3| |] eqn:Hv.
        -- apply (proj1 (parse_consumes fuel)) in Hv.
           destruct (skip_ws r3) as [|d r4] eqn:Hr3; [discriminate|].
           apply skip_ws_cons in Hr3.
           destruct (d =? 44)%N; [apply IHm; lia|].
           destruct (d =? 125)%N; discriminate.
        -- discriminate.
        -- exfalso. revert Hv. apply IHv. lia.
      * exfalso. revert Hk. apply (parse_string_fuel _ _ _ (le_n _)).
Qed.

(** [JSON.parse] never stops for lack of fuel: [None] is a SyntaxError. *)
Lemma parse_value_enough_fuel (text : jsstring) :
  parse_value (enough_fuel text) text <> OutOfFuel.
Proof. apply (proj1 (parse_fuel _)). unfold enough_fuel. lia. Qed.

(** [None] is a SyntaxError: either no value can be read at the start of the
    text, or something other than whitespace follows the value. *)
Lemma parse_none (text : jsstring) :
  parse text = None ->
  parse_value (enough_fuel text) text = Malformed
  \/ exists v rest, parse_value (enough_fuel text) text = Parsed v rest
                    /\ skip_ws rest <> [].
Proof.
  unfold parse. pose proof (parse_value_enough_fuel text) as Hf.
  destruct (parse_value (enough_fuel text) text) as [v rest| |].
  - destruct (skip_ws rest) eqn:E; [discriminate|].
    intros _. right. exists v, rest. split; [reflexivity|]. now rewrite E.
  - now left.
  - now elim Hf.
Qed.

End JSONFacts.

(** ** Strings *)

Lemma jsstring_eqb_eq (a b : jsstring) : jsstring_eqb a b = true <-> a = b.
Proof.
  revert b. induction a as [|x a IH]; intros [|y b]; simpl; split;
    try congruence; try discriminate.
  - intros H. apply andb_true_iff in H as [Hx Hab].
    apply N.eqb_eq in Hx. apply IH in Hab. congruence.
  - intros H. injection H as -> ->. apply andb_true_iff. split.
    + apply N.eqb_refl.
    + now apply IH.
Qed.

Lemma ToBoolean_Str (s : jsstring) : ToBoolean (Str s) = match s with [] => false | _ => true end.
Proof. destruct s; reflexivity. Qed.

Lemma trimStart_all_whitespace (s : jsstring) :
  Forall (fun c => isWhiteSpace c = true) s -> trimStart s = [].
Proof.
  induction 1 as [|c s Hc _ IH]; simpl; [reflexivity|]. now rewrite Hc.
Qed.

Lemma trim_all_whitespace (s : jsstring) :
  Forall (fun c => isWhiteSpace c = true) s -> trim s = [].
Proof.
  intros H. unfold trim. now rewrite (trimStart_all_whitespace s H).
Qed.

Lemma trimStart_app_keep (s t : jsstring) c :
  isWhiteSpace c = false -> exists u, trimStart (s ++ c :: t) = u ++ c :: t.
Proof.
  intros Hc. induction s as [|d s IH]; simpl.
  - rewrite Hc. now exists [].
  - destruct (isWhiteSpace d); [exact IH|]. now exists (d :: s).
Qed.

(** [trim] keeps a string that starts with a character other than
    whitespace non-empty. *)
Lemma trim_keeps_head (c : codeunit) (s : jsstring) :
  isWhiteSpace c = false -> trim (c :: s) <> [].
Proof.
  intros Hc. unfold trim, trimEnd. simpl trimStart at 2. rewrite Hc.
  simpl rev at 2.
  destruct (trimStart_app_keep (rev s) [] c Hc) as [u Hu].
  rewrite Hu. rewrite rev_app_distr. simpl. discriminate.
Qed.

Lemma startsWith_cons (c : codeunit) (search s : jsstring) :
  startsWith s (c :: search) = true ->
  exists s', s = c :: s' /\ startsWith s' search = true.
Proof.
  destruct s as [|d s]; simpl; [discriminate|]. intros H.
  apply andb_true_iff in H as [Hc H].
  apply N.eqb_eq in Hc. subst d. now exists s.
Qed.

Lemma startsWith_data_head (line : jsstring) :
  startsWith line (js "data: ") = true ->
  exists s, line = 100%N :: s.
Proof.
  change (js "data: ") with (100%N :: js "ata: "). intros H.
  apply startsWith_cons in H as (s & -> & _). now exists s.
Qed.

(** The first two tests of the parsers are implied by the third: a line
    that starts with the prefix is neither empty nor whitespace. *)
Lemma gates_payload (line : jsstring) :
  payload line =
  if negb (ToBoolean (Str line)) || negb (ToBoolean (Str (trim line))) then None
  else if negb (startsWith line (js "data: ")) then None
  else let data := trim (substring 6 line) in
       if negb (ToBoolean (Str data)) then None else Some data.
Proof.
  unfold payload.
  destruct (startsWith line (js "data: ")) eqn:Hp.
  - destruct (startsWith_data_head line Hp) as [s ->].
    pose proof (trim_keeps_head 100%N s eq_refl) as Ht.
    rewrite !ToBoolean_Str.
    destruct (trim (100%N :: s)) eqn:E; [now elim Ht|]. cbn [negb orb].
    destruct (trim (substring 6 (100%N :: s))); reflexivity.
  - cbn [negb]. destruct (negb _ || negb _); reflexivity.
Qed.

(** ** Property reads *)

Lemma get_not_nullish (v : value) (key : string) :
  nullish v = false -> get v key = Normal (get_own v (js key)).
Proof. destruct v; simpl; congruence. Qed.

Lemma get_optional_not_nullish (v : value) (key : string) :
  nullish v = false -> get_optional v key = get_own v (js key).
Proof. destruct v; simpl; congruence. Qed.

Lemma get_optional_nullish (v : value) (key : string) :
  nullish v = true -> get_optional v key = Undefined.
Proof. destruct v; simpl; congruence. Qed.

Lemma truthy_not_nullish (v : value) : ToBoolean v = true -> nullish v = false.
Proof. destruct v; simpl; congruence. Qed.

Lemma get_optional_truthy (v : value) (key : string) :
  ToBoolean (get_optional v key) = true ->
  nullish v = false /\ get v key = Normal (get_optional v key).
Proof.
  destruct (nullish v) eqn:Hv.
  - rewrite (get_optional_nullish v key Hv). discriminate.
  - intros _. split; [reflexivity|].
    rewrite (get_optional_not_nullish v key Hv). now apply get_not_nullish.
Qed.

(** ** The monad *)

Section MonadFacts.
Context {World : Type}.
Implicit Types (cb : callback World) (w : World).

Lemma outcome_eta {A} (o : outcome World A) :
  Outcome (result o) (world o) (trace o) = o.
Proof. now destruct o. Qed.

Lemma try_catch_ret {A} (a : A) (h : M World A) w :
  try_catch (ret a) h w = Outcome (Normal a) w [].
Proof. reflexivity. Qed.

Lemma try_catch_bind_lift {A B} (c : completion A) (k : A -> M World B)
    (h : M World B) w :
  try_catch (bind (lift c) k) h w =
  match c with
  | Normal a => try_catch (k a) h w
  | Abrupt _ => h w
  end.
Proof.
  destruct c as [a|e]; unfold try_catch, bind, lift; cbn [result world trace].
  - destruct (k a w) as [[b|e] w' t]; reflexivity.
  - now destruct (h w).
Qed.

Lemma try_catch_bind_ret {A B} (a : A) (k : A -> M World B) (h : M World B) w :
  try_catch (bind (ret a) k) h w = try_catch (k a) h w.
Proof. exact (try_catch_bind_lift (Normal a) k h w). Qed.

Lemma try_catch_bind_bind_lift {A B C} (c : completion A) (f : A -> M World B)
    (g : B -> M World C) (h : M World C) w :
  try_catch (bind (bind (lift c) f) g) h w =
  match c with
  | Normal a => try_catch (bind (f a) g) h w
  | Abrupt _ => h w
  end.
Proof.
  destruct c as [a|e]; unfold try_catch, bind, lift; cbn [result world trace].
  - destruct (f a w) as [[b|e] w' t]; cbn [result world trace].
    + destruct (g b w') as [[x|e] w'' t']; reflexivity.
    + reflexivity.
  - now destruct (h w).
Qed.

(** The last step of a mutation: the callback runs inside the [try] block,
    so the handler also runs when the callback throws. *)
Lemma try_catch_call cb (s cc data : jsstring) w :
  try_catch (bind (call cb s) (fun _ => ret s))
    (bind (console_debug failed_to_parse data) (fun _ => ret cc)) w =
  perform cc cb (Update s data) w.
Proof.
  unfold try_catch, bind, call, console_debug, ret, perform.
  destruct (cb s w) as [[[]|e] w']; reflexivity.
Qed.

Lemma handler_logs cb (cc data : jsstring) w :
  bind (console_debug failed_to_parse data) (fun _ => ret cc) w =
  perform cc cb (LogFailure data) w.
Proof. reflexivity. Qed.

Lemma try_catch_boundary cb (cc data : jsstring) (h : M World jsstring) w :
  h = bind (console_debug failed_to_parse data) (fun _ => ret cc) ->
  try_catch
    (if ToBoolean (Str cc)
     then bind (call cb (cc ++ blank_line)) (fun _ => ret (cc ++ blank_line))
     else ret cc) h w =
  perform cc cb (boundary_action cc data) w.
Proof.
  intros ->. destruct cc as [|c cc]; [reflexivity|].
  cbn [ToBoolean jsstring_eqb negb]. apply try_catch_call.
Qed.

Lemma try_catch_append cb (cc data : jsstring) (text : completion jsstring)
    (h : M World jsstring) w :
  h = bind (console_debug failed_to_parse data) (fun _ => ret cc) ->
  try_catch
    (bind (lift (cbind text (fun t => Normal (cc ++ t))))
       (fun newCompletion =>
          bind (call cb newCompletion) (fun _ => ret newCompletion))) h w =
  perform cc cb (append_action cc data text) w.
Proof.
  intros ->. rewrite try_catch_bind_lift. destruct text as [t|e]; simpl.
  - apply try_catch_call.
  - reflexivity.
Qed.

End MonadFacts.

(** ** The block filter of the LangGraph parser *)

Lemma is_text_block_not_nullish (block : value) :
  nullish block = false ->
  exists selected, LangGraph.is_text_block block = Normal selected
                   /\ ToBoolean selected = kept_block block.
Proof.
  intros Hb. unfold LangGraph.is_text_block, kept_block.
  rewrite !(get_not_nullish block _ Hb). cbn [cbind].
  destruct (strictEquals _ "text"); eauto.
Qed.

Lemma is_text_block_nullish (block : value) :
  nullish block = true -> LangGraph.is_text_block block = Abrupt TypeError.
Proof. destruct block; try discriminate; reflexivity. Qed.

(** The filter throws on the first element that is [null]; otherwise it
    keeps the blocks of type text whose text is truthy. *)
Lemma filter_blocks (content : list value) :
  Array_filter LangGraph.is_text_block content =
  if existsb nullish content then Abrupt TypeError
  else Normal (filter kept_block content).
Proof.
  induction content as [|block content IH]; [reflexivity|].
  cbn [Array_filter existsb filter].
  destruct (nullish block) eqn:Hb.
  - now rewrite (is_text_block_nullish block Hb).
  - destruct (is_text_block_not_nullish block Hb) as (selected & Hs & Hk).
    rewrite Hs. cbn [cbind orb]. rewrite IH.
    destruct (existsb nullish content); [reflexivity|].
    cbn [cbind]. now rewrite Hk.
Qed.

Lemma kept_block_not_nullish (block : value) :
  kept_block block = true -> nullish block = false.
Proof. destruct block; try reflexivity; discriminate. Qed.

Lemma map_kept_blocks (content : list value) :
  Array_map LangGraph.block_text (filter kept_block content) =
  Normal (kept_texts content).
Proof.
  unfold kept_texts.
  induction content as [|block content IH]; [reflexivity|].
  cbn [filter]. destruct (kept_block block) eqn:Hk; [|exact IH].
  cbn [Array_map map]. unfold LangGraph.block_text at 1.
  rewrite (get_not_nullish block _ (kept_block_not_nullish block Hk)).
  cbn [cbind]. rewrite IH. reflexivity.
Qed.

(** ** The parsers and their view *)

Section View.
Context {World : Type}.
Implicit Types (cb : callback World) (w : World).

Lemma strands_view line cc cb w :
  Strands.parseStreamingChunk line cc cb w = perform cc cb (view Converse line cc) w.
Proof.
  unfold Strands.parseStreamingChunk, view. rewrite gates_payload.
  destruct (negb (ToBoolean (Str line)) || negb (ToBoolean (Str (trim line))));
    [reflexivity|].
  destruct (negb (startsWith line (js "data: "))); [reflexivity|].
  cbv zeta. set (data := trim (substring 6 line)).
  destruct (negb (ToBoolean (Str data))); [reflexivity|].
  set (h := bind (console_debug failed_to_parse data) (fun _ => ret cc)).
  rewrite try_catch_bind_lift.
  unfold JSON_parse. destruct (JSON.parse data) as [json|]; [|reflexivity].
  unfold strands_classify.
  rewrite try_catch_bind_lift.
  destruct (nullish json) eqn:Hjson.
  { destruct json; try discriminate; reflexivity. }
  unfold path. cbn [fold_left].
  rewrite (get_optional_not_nullish json "event" Hjson).
  rewrite (get_not_nullish json "event" Hjson).
  set (event := get_own json (js "event")).
  destruct (strictEquals _ "assistant").
  { now apply try_catch_boundary. }
  rewrite try_catch_bind_lift.
  set (contentBlockDelta := get_optional event "contentBlockDelta").
  set (delta := get_optional contentBlockDelta "delta").
  set (text := get_optional delta "text").
  destruct (ToBoolean text) eqn:Htext; [|reflexivity].
  destruct (get_optional_truthy _ _ Htext) as [Hdelta Hget_text].
  assert (Hcbd : nullish contentBlockDelta = false).
  { destruct (nullish contentBlockDelta) eqn:E; [|reflexivity].
    unfold delta in Hdelta.
    now rewrite (get_optional_nullish _ _ E) in Hdelta. }
  assert (Hevent : nullish event = false).
  { destruct (nullish event) eqn:E; [|reflexivity].
    unfold contentBlockDelta in Hcbd.
    now rewrite (get_optional_nullish _ _ E) in Hcbd. }
  rewrite try_catch_bind_lift.
  rewrite try_catch_bind_lift, (get_not_nullish event _ Hevent).
  rewrite <- (get_optional_not_nullish event _ Hevent). fold contentBlockDelta.
  rewrite try_catch_bind_lift, (get_not_nullish contentBlockDelta _ Hcbd).
  rewrite <- (get_optional_not_nullish contentBlockDelta _ Hcbd). fold delta.
  rewrite try_catch_bind_lift, Hget_text. fold text.
  now apply try_catch_append.
Qed.

Lemma langgraph_view line cc cb w :
  LangGraph.parseStreamingChunk line cc cb w =
  perform cc cb (view LangGraphStyle line cc) w.
Proof.
  unfold LangGraph.parseStreamingChunk, view. rewrite gates_payload.
  destruct (negb (ToBoolean (Str line)) || negb (ToBoolean (Str (trim line))));
    [reflexivity|].
  destruct (negb (startsWith line (js "data: "))); [reflexivity|].
  cbv zeta. set (data := trim (substring 6 line)).
  destruct (negb (ToBoolean (Str data))); [reflexivity|].
  set (h := bind (console_debug failed_to_parse data) (fun _ => ret cc)).
  rewrite try_catch_bind_lift.
  unfold JSON_parse. destruct (JSON.parse data) as [json|]; [|reflexivity].
  unfold langgraph_classify.
  rewrite try_catch_bind_lift.
  destruct (nullish json) eqn:Hjson.
  { destruct json; try discriminate; reflexivity. }
  rewrite !(get_not_nullish json _ Hjson).
  destruct (strictEquals _ "AIMessageChunk").
  2:{ rewrite try_catch_bind_ret. reflexivity. }
  rewrite try_catch_bind_bind_lift, try_catch_bind_ret.
  set (content := get_own json (js "content")).
  destruct content as [| | | | |blocks|]; try reflexivity.
  cbn [Array_isArray]. rewrite try_catch_bind_lift.
  cbn [elements_of]. destruct blocks as [|block blocks].
  { now apply try_catch_boundary. }
  cbn [List.length Nat.eqb].
  rewrite try_catch_bind_lift, try_catch_bind_lift, filter_blocks.
  cbn [elements_of].
  destruct (existsb nullish (block :: blocks)); [reflexivity|].
  rewrite try_catch_bind_lift, map_kept_blocks.
  rewrite try_catch_bind_lift.
  destruct (Array_join [] (kept_texts (block :: blocks))) as [[|c t]|e].
  - reflexivity.
  - cbn [ToBoolean jsstring_eqb negb]. apply try_catch_call.
  - reflexivity.
Qed.

Lemma parseChunk_view (a : adapter) line cc cb w :
  parseChunk a line cc cb w = perform cc cb (view a line cc) w.
Proof. destruct a; [apply strands_view | apply langgraph_view]. Qed.

End View.

(** ** The runtime model on known values *)

Example trim_strips_both_ends :
  trim (js "  data: x  ") = js "data: x".
Proof. reflexivity. Qed.

Example number_tenth :
  Number.toString (Number.of_decimal false 1 (-1)) = js "0.1".
Proof. vm_compute. reflexivity. Qed.

Example number_large :
  Number.toString (Number.of_decimal false 1 21) = js "1e+21".
Proof. vm_compute. reflexivity. Qed.

Example number_rounded :
  Number.toString (Number.of_decimal false 9007199254740993 0)
  = js "9007199254740992".
Proof. vm_compute. reflexivity. Qed.

Example number_smallest :
  Number.toString (Number.of_decimal false 3 (-324)) = js "5e-324".
Proof. vm_compute. reflexivity. Qed.

Example number_overflow :
  Number.toString (Number.of_decimal true 1 400) = js "-Infinity".
Proof. vm_compute. reflexivity. Qed.

Example parse_duplicate_key :
  JSON.parse (json_text " {'a':1,'b':[true,null],'a':'A\n'} ")
  = Some (Obj [(js "a", Str [65%N; 10%N]);
               (js "b", Arr [Bool true; Null])]).
Proof. vm_compute. reflexivity. Qed.

Example parse_trailing_comma : JSON.parse (json_text "[1,]") = None.
Proof. vm_compute. reflexivity. Qed.

Example parse_leading_zero : JSON.parse (json_text "01") = None.
Proof. vm_compute. reflexivity. Qed.

Example array_to_string :
  ToString (Arr [Str (js "a"); Null; Arr [Bool true; Obj []]])
  = Normal (js "a,,true,[object Object]").
Proof. vm_compute. reflexivity. Qed.

Example own_toString_throws :
  ToString (Obj [(js "toString", Bool true)]) = Abrupt TypeError.
Proof. reflexivity. Qed.

(** The string conversion of an array is its join with commas. *)
Lemma ToString_Arr (elements : list value) :
  ToString (Arr elements) = Array_join (js ",") elements.
Proof.
  induction elements as [|x l IH]; [reflexivity|].
  cbn [Array_join]. rewrite <- IH. reflexivity.
Qed.

(** Two deltas in a row, as a caller threads the buffer through the
    calls. *)
Example converse_two_deltas :
  let first := Strands.parseStreamingChunk
    (json_text "data: {'event':{'contentBlockDelta':{'delta':{'text':'Hello'}}}}")
    [] recorder [] in
  let second := Strands.parseStreamingChunk
    (json_text "data: {'event':{'contentBlockDelta':{'delta':{'text':' world'}}}}")
    (js "Hello") recorder (world first) in
  result first = Normal (js "Hello")
  /\ result second = Normal (js "Hello world")
  /\ world second = [js "Hello"; js "Hello world"].
Proof. vm_compute. repeat split. Qed.

(** A number as delta text is appended in its decimal form. *)
Example converse_number_delta :
  result (Strands.parseStreamingChunk
            (json_text "data: {'event':{'contentBlockDelta':{'delta':{'text':0.5}}}}")
            (js "abc") recorder [])
  = Normal (js "abc0.5").
Proof. vm_compute. reflexivity. Qed.

(** ** Facts about the view *)

Lemma decoded_payload (line : jsstring) (json : value) :
  decoded line = Some json <->
  exists data, payload line = Some data /\ JSON.parse data = Some json.
Proof.
  unfold decoded. destruct (payload line) as [data|]; split.
  - intros H. now exists data.
  - intros (data' & [= <-] & H). exact H.
  - discriminate.
  - intros (data' & [=] & _).
Qed.

Lemma view_decoded (a : adapter) (line cc : jsstring) (json : value) :
  decoded line = Some json ->
  exists data,
    view a line cc =
    match a with
    | Converse => strands_classify json cc data
    | LangGraphStyle => langgraph_classify json cc data
    end.
Proof.
  intros H. apply decoded_payload in H as (data & Hp & Hj).
  exists data. unfold view. now rewrite Hp, Hj.
Qed.

Lemma app_nonempty_neq (cc t : jsstring) : t <> [] -> cc ++ t <> cc.
Proof.
  intros Ht E. apply Ht.
  apply (app_inv_head cc). now rewrite app_nil_r.
Qed.

Lemma boundary_action_update (cc data s d : jsstring) :
  boundary_action cc data = Update s d -> s = cc ++ blank_line /\ d = data.
Proof. destruct cc; simpl; [discriminate|]. intros [= <- <-]. auto. Qed.

Lemma append_action_update (cc data s d : jsstring) (text : completion jsstring) :
  append_action cc data text = Update s d ->
  exists t, text = Normal t /\ s = cc ++ t /\ d = data.
Proof. destruct text as [t|e]; simpl; [|discriminate]. intros [= <- <-]. eauto. Qed.

(** Every update extends the buffer. *)
Lemma view_update_extends (a : adapter) (line cc s d : jsstring) :
  view a line cc = Update s d -> exists suffix, s = cc ++ suffix.
Proof.
  unfold view. destruct (payload line) as [data|]; [|discriminate].
  destruct (JSON.parse data) as [json|]; [|discriminate].
  destruct a.
  - unfold strands_classify. destruct (nullish json); [discriminate|].
    destruct (strictEquals _ _).
    + intros H. apply boundary_action_update in H as [-> _]. eauto.
    + cbv zeta. destruct (ToBoolean _); [|discriminate].
      intros H. apply append_action_update in H as (t & _ & -> & _). eauto.
  - unfold langgraph_classify. destruct (nullish json); [discriminate|].
    destruct (strictEquals _ _); [|discriminate].
    destruct (get_own json (js "content")) as [| | | | |[|b l]|]; try discriminate.
    + intros H. apply boundary_action_update in H as [-> _]. eauto.
    + destruct (existsb nullish (b :: l)); [discriminate|].
      destruct (Array_join [] (kept_texts (b :: l))) as [[|c t]|e];
        try discriminate.
      intros [= <- _]. eauto.
Qed.

(** An update of the LangGraph parser always changes the buffer. *)
Lemma langgraph_update_changes (line cc s d : jsstring) :
  view LangGraphStyle line cc = Update s d -> s <> cc.
Proof.
  unfold view. destruct (payload line) as [data|]; [|discriminate].
  destruct (JSON.parse data) as [json|]; [|discriminate].
  unfold langgraph_classify. destruct (nullish json); [discriminate|].
  destruct (strictEquals _ _); [|discriminate].
  destruct (get_own json (js "content")) as [| | | | |[|b l]|]; try discriminate.
  - intros H. apply boundary_action_update in H as [-> _].
    now apply app_nonempty_neq.
  - destruct (existsb nullish (b :: l)); [discriminate|].
    destruct (Array_join [] (kept_texts (b :: l))) as [[|c t]|e];
      try discriminate.
    intros [= <- _]. now apply app_nonempty_neq.
Qed.

(** An update of the Converse parser leaves the buffer as it was only when
    the delta text is a truthy value whose string conversion is empty. *)
Lemma strands_update_same (line cc d : jsstring) :
  view Converse line cc = Update cc d ->
  exists json, decoded line = Some json
               /\ ToBoolean (delta_text json) = true
               /\ ToString (delta_text json) = Normal [].
Proof.
  unfold view, decoded. destruct (payload line) as [data|]; [|discriminate].
  destruct (JSON.parse data) as [json|]; [|discriminate].
  unfold strands_classify. destruct (nullish json); [discriminate|].
  destruct (strictEquals _ _).
  - intros H. apply boundary_action_update in H as [H _].
    symmetry in H. now apply app_nonempty_neq in H.
  - cbv zeta. fold (delta_text json).
    destruct (ToBoolean (delta_text json)) eqn:Hb; [|discriminate].
    intros H. apply append_action_update in H as (t & Ht & E & _).
    exists json. split; [reflexivity|]. split; [exact Hb|].
    rewrite Ht. f_equal. apply (app_inv_head cc). now rewrite app_nil_r.
Qed.

Lemma strictEquals_eq (v : value) (literal : string) :
  strictEquals v literal = true <-> v = Str (js literal).
Proof.
  destruct v; simpl; split; try discriminate.
  - intros H. apply jsstring_eqb_eq in H. now subst.
  - intros [= ->]. now apply jsstring_eqb_eq.
Qed.

(** ** Joining strings *)

Lemma Array_join_Str (s : jsstring) (l : list value) :
  Array_join [] (Str s :: l) =
  cbind (Array_join [] l) (fun r => Normal (s ++ r)).
Proof.
  cbn [Array_join ToString cbind]. destruct l as [|x l].
  - cbn. now rewrite app_nil_r.
  - reflexivity.
Qed.

(** On blocks that are not null and whose text, if any, is a string, the
    blocks the parser keeps give the concatenation the specification
    describes: a text that is present and empty is dropped by the one and
    contributes nothing to the other. *)
Lemma kept_texts_spec (content : list value) :
  Forall (fun block => nullish block = false /\ text_is_string block) content ->
  Array_join [] (kept_texts content) = Normal (spec_concatenation content).
Proof.
  unfold kept_texts, spec_concatenation.
  induction 1 as [|block content [Hn Ht] _ IH]; [reflexivity|].
  cbn [filter]. unfold kept_block at 1, spec_text_block at 1.
  unfold text_is_string in Ht. unfold path in *. cbn [fold_left] in *.
  rewrite !(get_optional_not_nullish block _ Hn) in *.
  destruct (strictEquals (get_own block (js "type")) "text"); cbn [andb].
  2:{ exact IH. }
  destruct Ht as [Ht|[s Ht]]; rewrite Ht.
  - exact IH.
  - destruct s as [|c s].
    + cbn [ToBoolean jsstring_eqb negb map List.concat].
      unfold spec_text_value, path. cbn [fold_left].
      rewrite (get_optional_not_nullish block _ Hn), Ht. exact IH.
    + cbn [ToBoolean jsstring_eqb negb map List.concat].
      unfold spec_text_value at 1, path. cbn [fold_left].
      rewrite (get_optional_not_nullish block _ Hn), Ht.
      rewrite Array_join_Str, IH. reflexivity.
Qed.

(** ** What carrying out a decision does *)

Section Perform.
Context {World : Type}.
Implicit Types (cb : callback World) (w : World).

Lemma perform_ignore cb w (cc : jsstring) : unchanged cc w (perform cc cb Ignore w).
Proof. now repeat split. Qed.

Lemma perform_log_failure cb w (cc data : jsstring) :
  unchanged cc w (perform cc cb (LogFailure data) w).
Proof. now repeat split. Qed.

Lemma perform_update cb w (cc s data : jsstring) :
  updated s cb w (perform cc cb (Update s data) w).
Proof.
  unfold updated, perform.
  destruct (cb s w) as [[[]|e] w']; repeat split; discriminate.
Qed.

Lemma perform_boundary cb w (cc data : jsstring) :
  let o := perform cc cb (boundary_action cc data) w in
  match cc with
  | [] => unchanged cc w o
  | _ :: _ => updated (cc ++ blank_line) cb w o
  end.
Proof.
  destruct cc as [|c cc]; [apply perform_ignore | apply perform_update].
Qed.

End Perform.

(** ** The claims *)

Section Claims.
Context {World : Type}.
Implicit Types (cb : callback World) (w : World) (a : adapter).
Implicit Types (line cc : jsstring).

(** C1. For every line, every buffer and every callback, a call of either
    parser completes normally and returns a string: no exception reaches
    the caller, whether it comes from the JSON reader, from a property read
    on null, from a string conversion or from the callback itself. *)
Theorem parseChunk_never_raises a line cc cb w :
  exists s : jsstring, result (parseChunk a line cc cb w) = Normal s.
Proof.
  rewrite parseChunk_view. unfold perform.
  destruct (view a line cc) as [|data|s data]; try (eexists; reflexivity).
  destruct (cb s w) as [[[]|e] w']; eexists; reflexivity.
Qed.

(** C2. The value returned by either parser has the buffer it was given as
    a prefix: text is appended, never removed or changed. *)
Theorem parseChunk_append_only a line cc cb w :
  exists suffix : jsstring,
    result (parseChunk a line cc cb w) = Normal (cc ++ suffix).
Proof.
  rewrite parseChunk_view. unfold perform.
  destruct (view a line cc) as [|data|s data] eqn:V;
    try (exists []; now rewrite app_nil_r).
  destruct (view_update_extends a line cc s data V) as [suffix ->].
  destruct (cb _ w) as [[[]|e] w'].
  - now exists suffix.
  - exists []. now rewrite app_nil_r.
Qed.

(** C3, amended. Each call invokes the callback at most once. Whenever the
    returned value differs from the buffer given, the callback has been
    invoked, once, with the returned value. Whenever the callback is invoked
    and returns, the call returns the callback's argument. That argument
    differs from the buffer given, so that invocation and change coincide,
    except in the Converse parser when [event.contentBlockDelta.delta.text]
    is a truthy value whose string conversion is empty: the callback then
    runs on the unchanged buffer. *)
Theorem callback_at_most_once a line cc cb w :
  let o := parseChunk a line cc cb w in
  List.length (calls (trace o)) <= 1
  /\ (result o <> Normal cc ->
      exists s, result o = Normal s /\ calls (trace o) = [s])
  /\ (forall argument,
        In argument (calls (trace o)) ->
        fst (cb argument w) = Normal tt -> result o = Normal argument)
  /\ (forall argument,
        In argument (calls (trace o)) -> argument = cc ->
        a = Converse
        /\ exists json, decoded line = Some json
                        /\ ToBoolean (delta_text json) = true
                        /\ ToString (delta_text json) = Normal []).
Proof.
  cbv zeta. rewrite parseChunk_view.
  destruct (view a line cc) as [|data|s data] eqn:V.
  - cbn. repeat split; try lia; try contradiction; congruence.
  - cbn. repeat split; try lia; try contradiction; congruence.
  - assert (Hcalls : calls (trace (perform cc cb (Update s data) w)) = [s]).
    { apply perform_update. }
    rewrite Hcalls. split; [simpl; lia|]. split; [|split].
    + intros Hr. exists s. split; [|reflexivity].
      unfold perform in *. destruct (cb s w) as [[[]|e] w']; [reflexivity|].
      now elim Hr.
    + intros argument [<-|[]] Hcb. now apply perform_update.
    + intros argument [<-|[]] ->. destruct a.
      * split; [reflexivity|]. exact (strands_update_same line _ data V).
      * now apply langgraph_update_changes in V.
Qed.

(** C4. A line that is empty, that consists of whitespace, that does not
    start with the prefix, that carries nothing after the prefix, or whose
    payload is not valid JSON leaves the buffer unchanged in both parsers,
    and the callback is not invoked. *)
Theorem malformed_line_ignored a line cc cb w :
  line = []
  \/ Forall (fun c => isWhiteSpace c = true) line
  \/ startsWith line (js "data: ") = false
  \/ trim (substring 6 line) = []
  \/ JSON.parse (trim (substring 6 line)) = None ->
  unchanged cc w (parseChunk a line cc cb w).
Proof.
  intros H. rewrite parseChunk_view.
  assert (V : view a line cc = Ignore
              \/ exists data, view a line cc = LogFailure data).
  { unfold view, payload.
    destruct (startsWith line (js "data: ")) eqn:Hp; [|now left].
    destruct H as [->|[Hws|[Hp'|[He|Hj]]]].
    - discriminate.
    - destruct (startsWith_data_head line Hp) as [s ->].
      inversion Hws as [|c l Hc _]. discriminate.
    - congruence.
    - rewrite He. now left.
    - destruct (trim (substring 6 line)) as [|c data]; [now left|].
      rewrite Hj. right. eauto. }
  destruct V as [->|[data ->]]; [apply perform_ignore | apply perform_log_failure].
Qed.

(** C5. In the Converse parser, a decoded value with
    [event.messageStart.role == "assistant"] appends the blank line to a
    non-empty buffer, invoking the callback once with the result, and leaves
    an empty buffer alone without invoking the callback. *)
Theorem converse_boundary_separator line cc cb w (json : value) :
  decoded line = Some json ->
  converse_boundary json ->
  let o := Strands.parseStreamingChunk line cc cb w in
  match cc with
  | [] => unchanged cc w o
  | _ :: _ => updated (cc ++ blank_line) cb w o
  end.
Proof.
  intros Hd Hb. cbv zeta. rewrite strands_view.
  destruct (view_decoded Converse line cc json Hd) as [data ->].
  unfold strands_classify. unfold converse_boundary in Hb. rewrite Hb.
  destruct (nullish json) eqn:Hn.
  { destruct json; discriminate. }
  change (strictEquals (Str (js "assistant")) "assistant") with true. cbv iota.
  apply perform_boundary.
Qed.

(** C6, amended. In the Converse parser, for a decoded value that is not a
    boundary: a truthy value at [event.contentBlockDelta.delta.text] (a
    non-empty string, but also true, a non-zero number, an array or an
    object) is converted to a string and appended, a string verbatim, and the
    callback is invoked once with the result; if the conversion throws, or
    if the value is falsy or missing, the buffer is unchanged and the
    callback is not invoked. *)
Theorem converse_text_delta line cc cb w (json : value) :
  decoded line = Some json ->
  ~ converse_boundary json ->
  let o := Strands.parseStreamingChunk line cc cb w in
  (if ToBoolean (delta_text json) then
     match ToString (delta_text json) with
     | Normal t => updated (cc ++ t) cb w o
     | Abrupt _ => unchanged cc w o
     end
   else unchanged cc w o)
  /\ (forall s, delta_text json = Str s -> s <> [] -> updated (cc ++ s) cb w o).
Proof.
  intros Hd Hb. cbv zeta. rewrite strands_view.
  destruct (view_decoded Converse line cc json Hd) as [data ->].
  assert (Main :
    if ToBoolean (delta_text json) then
      match ToString (delta_text json) with
      | Normal t =>
          updated (cc ++ t) cb w (perform cc cb (strands_classify json cc data) w)
      | Abrupt _ =>
          unchanged cc w (perform cc cb (strands_classify json cc data) w)
      end
    else unchanged cc w (perform cc cb (strands_classify json cc data) w)).
  { unfold strands_classify.
    destruct (nullish json) eqn:Hn.
    { assert (delta_text json = Undefined) as -> by (destruct json; try discriminate; reflexivity).
      apply perform_log_failure. }
    destruct (strictEquals _ "assistant") eqn:Hs.
    { apply strictEquals_eq in Hs. now elim Hb. }
    cbv zeta. fold (delta_text json).
    destruct (ToBoolean (delta_text json)); [|apply perform_ignore].
    destruct (ToString (delta_text json)) as [t|e];
      [apply perform_update | apply perform_log_failure]. }
  split; [exact Main|].
  intros s Hs Hne. rewrite Hs in Main. destruct s as [|c s]; [now elim Hne|].
  exact Main.
Qed.

(** C7, amended. In the LangGraph parser, for a decoded AIMessageChunk whose
    content is a non-empty array: if an element of the array is null, the
    block filter throws inside the [try] block and the buffer is unchanged,
    without a callback; otherwise the parser keeps the blocks whose type is
    text and whose text is truthy, joins the string conversions of their
    texts in array order with nothing between them, appends a non-empty
    result and invokes the callback once with the new buffer, and leaves
    the buffer unchanged without a callback when the result is empty or a
    conversion throws. When no element is null and every text is a string,
    what is appended is the concatenation the specification describes. *)
Theorem langgraph_text_delta line cc cb w (json : value) (content : list value) :
  decoded line = Some json ->
  langgraph_chunk json content ->
  content <> [] ->
  let o := LangGraph.parseStreamingChunk line cc cb w in
  (if existsb nullish content then unchanged cc w o
   else
     match Array_join [] (kept_texts content) with
     | Normal [] => unchanged cc w o
     | Normal t => updated (cc ++ t) cb w o
     | Abrupt _ => unchanged cc w o
     end)
  /\ (Forall (fun block => nullish block = false /\ text_is_string block) content ->
      match spec_concatenation content with
      | [] => unchanged cc w o
      | t => updated (cc ++ t) cb w o
      end).
Proof.
  intros Hd [Hty Hco] Hne. cbv zeta. rewrite langgraph_view.
  destruct (view_decoded LangGraphStyle line cc json Hd) as [data ->].
  unfold path in Hty, Hco. cbn [fold_left] in Hty, Hco.
  assert (Hn : nullish json = false).
  { destruct json; try discriminate; reflexivity. }
  rewrite (get_optional_not_nullish json _ Hn) in Hty.
  rewrite (get_optional_not_nullish json _ Hn) in Hco.
  unfold langgraph_classify. rewrite Hn, Hty, Hco.
  change (strictEquals (Str (js "AIMessageChunk")) "AIMessageChunk") with true.
  cbv iota.
  destruct content as [|block blocks]; [now elim Hne|].
  set (content := block :: blocks).
  set (o := perform cc cb _ w).
  assert (Main :
    if existsb nullish content then unchanged cc w o
    else match Array_join [] (kept_texts content) with
         | Normal [] => unchanged cc w o
         | Normal t => updated (cc ++ t) cb w o
         | Abrupt _ => unchanged cc w o
         end).
  { subst o. destruct (existsb nullish content); [apply perform_log_failure|].
    destruct (Array_join [] (kept_texts content)) as [[|c t]|e];
      [apply perform_ignore | apply perform_update | apply perform_log_failure]. }
  split; [exact Main|].
  intros Hwf.
  assert (Hnn : existsb nullish content = false).
  { clear -Hwf. induction Hwf as [|b l [Hb _] _ IH]; [reflexivity|].
    cbn [existsb]. now rewrite Hb, IH. }
  rewrite Hnn, (kept_texts_spec _ Hwf) in Main.
  destruct (spec_concatenation content); exact Main.
Qed.

(** C8, amended. The LangGraph parser, given the line of two blocks of type
    text, Hi and there, and an empty buffer, returns Hi there and invokes
    the callback once with it: nothing is put between the blocks. *)
Theorem langgraph_two_text_blocks :
  let line := json_text
    "data: {'type':'AIMessageChunk','content':[{'type':'text','text':'Hi'},{'type':'text','text':' there'}]}" in
  let o := LangGraph.parseStreamingChunk line [] recorder [] in
  result o = Normal (js "Hi there") /\ trace o = [Call (js "Hi there")].
Proof. vm_compute. split; reflexivity. Qed.

(** C9. For every buffer and every callback, a LangGraph boundary line and a
    Converse boundary line have the same effect: the same returned value,
    the same invocations of the callback, the same state of the caller;
    nothing happens on an empty buffer, and a non-empty one gets the blank
    line appended with one invocation of the callback. *)
Theorem boundary_equivalence cc cb w (l1 l2 : jsstring) (j1 j2 : value) :
  decoded l1 = Some j1 -> langgraph_chunk j1 [] ->
  decoded l2 = Some j2 -> converse_boundary j2 ->
  let o1 := LangGraph.parseStreamingChunk l1 cc cb w in
  let o2 := Strands.parseStreamingChunk l2 cc cb w in
  result o1 = result o2
  /\ calls (trace o1) = calls (trace o2)
  /\ world o1 = world o2
  /\ match cc with
     | [] => unchanged cc w o1
     | _ :: _ => updated (cc ++ blank_line) cb w o1
     end.
Proof.
  intros Hd1 [Hty Hco] Hd2 Hb. cbv zeta. rewrite langgraph_view, strands_view.
  destruct (view_decoded LangGraphStyle l1 cc j1 Hd1) as [d1 ->].
  destruct (view_decoded Converse l2 cc j2 Hd2) as [d2 ->].
  unfold path in Hty, Hco. cbn [fold_left] in Hty, Hco.
  assert (Hn1 : nullish j1 = false).
  { destruct j1; try discriminate; reflexivity. }
  assert (Hn2 : nullish j2 = false).
  { destruct j2; try discriminate; reflexivity. }
  rewrite (get_optional_not_nullish j1 _ Hn1) in Hty.
  rewrite (get_optional_not_nullish j1 _ Hn1) in Hco.
  unfold langgraph_classify, strands_classify.
  unfold converse_boundary in Hb.
  rewrite Hn1, Hn2, Hty, Hco, Hb.
  change (strictEquals (Str (js "AIMessageChunk")) "AIMessageChunk") with true.
  change (strictEquals (Str (js "assistant")) "assistant") with true.
  cbv iota.
  split; [|split; [|split]]; try apply perform_boundary.
  all: destruct cc as [|c cc]; [reflexivity|]; unfold boundary_action, perform;
    destruct (cb _ w) as [[[]|e] w']; reflexivity.
Qed.

(** C10. In both parsers the callback runs inside the [try] block. When a
    call would change the buffer to [s] and the callback throws on [s], the
    exception is caught: the callback has been invoked with the longer
    buffer [s], the failure is logged, and the call returns the buffer it
    was given. *)
Theorem callback_exception_swallowed a line cc cb w (s : jsstring) (e : exn)
    (w' : World) :
  result (parseChunk a line cc quiet tt) = Normal s ->
  s <> cc ->
  cb s w = (Abrupt e, w') ->
  let o := parseChunk a line cc cb w in
  result o = Normal cc
  /\ world o = w'
  /\ List.length cc < List.length s
  /\ exists data, trace o = [Call s; ConsoleDebug failed_to_parse data].
Proof.
  intros Hq Hs Hcb. cbv zeta.
  rewrite (parseChunk_view a line cc quiet tt) in Hq. rewrite parseChunk_view.
  destruct (view a line cc) as [|data|s' data] eqn:V;
    unfold perform, quiet in Hq; cbn in Hq.
  - injection Hq as <-. now elim Hs.
  - injection Hq as <-. now elim Hs.
  - injection Hq as ->. unfold perform. rewrite Hcb.
    destruct (view_update_extends a line cc s data V) as [suffix ->].
    cbn [result world trace].
    split; [reflexivity|]. split; [reflexivity|]. split; [|eauto].
    rewrite length_app. destruct suffix; [|simpl; lia].
    rewrite app_nil_r in Hs. now elim Hs.
Qed.

End Claims.

(** ** The claims at concrete lines *)

(** C3, as stated, fails. In the Converse parser an empty array at
    [event.contentBlockDelta.delta.text] is truthy and its string
    conversion is empty: the callback runs, with the buffer as it was,
    and the call returns the buffer unchanged. *)
Lemma callback_without_change :
  let line := json_text "data: {'event':{'contentBlockDelta':{'delta':{'text':[]}}}}" in
  let cc := js "abc" in
  let o := parseChunk Converse line cc recorder [] in
  result o = Normal cc
  /\ calls (trace o) = [cc]
  /\ ~ callback_iff_changed cc o.
Proof.
  cbv zeta.
  assert (E : parseChunk Converse
                (json_text "data: {'event':{'contentBlockDelta':{'delta':{'text':[]}}}}")
                (js "abc") recorder [] =
              Outcome (Normal (js "abc")) [js "abc"] [Call (js "abc")])
    by (vm_compute; reflexivity).
  rewrite E. cbn [result trace calls].
  split; [reflexivity|]. split; [reflexivity|].
  intros (_ & [H _] & _). apply H; [discriminate | reflexivity].
Qed.

(** Witness of C4: a payload cut in the middle of an object. *)
Lemma malformed_line_ignored_witness :
  let line := json_text "data: {'event':{'contentBlockDelta':" in
  JSON.parse (trim (substring 6 line)) = None
  /\ unchanged (js "Hello") [] (parseChunk Converse line (js "Hello") recorder []).
Proof.
  cbv zeta.
  assert (H : JSON.parse
                (trim (substring 6
                   (json_text "data: {'event':{'contentBlockDelta':"))) = None)
    by (vm_compute; reflexivity).
  split; [exact H|].
  apply malformed_line_ignored. do 4 right. exact H.
Defined.

(** Witness of C5: the boundary line of the specification on the buffer
    Hello world. *)
Lemma converse_boundary_separator_witness :
  let line := json_text "data: {'event':{'messageStart':{'role':'assistant'}}}" in
  let cc := js "Hello world" in
  let o := Strands.parseStreamingChunk line cc recorder [] in
  (exists json, decoded line = Some json /\ converse_boundary json)
  /\ result o = Normal (cc ++ blank_line)
  /\ calls (trace o) = [cc ++ blank_line].
Proof.
  cbv zeta.
  set (line := json_text "data: {'event':{'messageStart':{'role':'assistant'}}}").
  set (json := Obj [(js "event",
                     Obj [(js "messageStart",
                           Obj [(js "role", Str (js "assistant"))])])]).
  assert (Hd : decoded line = Some json) by (vm_compute; reflexivity).
  assert (Hb : converse_boundary json) by (vm_compute; reflexivity).
  split; [exists json; split; assumption|].
  destruct (converse_boundary_separator line (js "Hello world") recorder []
              json Hd Hb) as (Hcalls & _ & Hresult).
  split; [apply Hresult; reflexivity | exact Hcalls].
Defined.

(** C6, as stated, fails. The value true at
    [event.contentBlockDelta.delta.text] is not a non-empty string, and yet
    the Converse parser appends its string conversion and invokes the
    callback. *)
Lemma truthy_text_appended :
  let line := json_text "data: {'event':{'contentBlockDelta':{'delta':{'text':true}}}}" in
  let cc := js "ok" in
  let o := Strands.parseStreamingChunk line cc recorder [] in
  (exists json, decoded line = Some json
                /\ ~ converse_boundary json
                /\ delta_text json = Bool true)
  /\ result o = Normal (js "oktrue")
  /\ calls (trace o) = [js "oktrue"]
  /\ ~ unchanged cc [] o.
Proof.
  cbv zeta.
  set (line := json_text "data: {'event':{'contentBlockDelta':{'delta':{'text':true}}}}").
  set (json := Obj [(js "event",
                     Obj [(js "contentBlockDelta",
                           Obj [(js "delta", Obj [(js "text", Bool true)])])])]).
  assert (E : Strands.parseStreamingChunk line (js "ok") recorder [] =
              Outcome (Normal (js "oktrue")) [js "oktrue"] [Call (js "oktrue")])
    by (vm_compute; reflexivity).
  rewrite E. cbn [result trace calls].
  split; [|split; [reflexivity|split; [reflexivity|]]].
  - exists json. split; [vm_compute; reflexivity|].
    split; [|vm_compute; reflexivity].
    unfold converse_boundary. vm_compute. discriminate.
  - intros (H & _). vm_compute in H. discriminate.
Qed.

(** Witness of C6: the text delta Hello on an empty buffer. *)
Lemma converse_text_delta_witness :
  let line := json_text "data: {'event':{'contentBlockDelta':{'delta':{'text':'Hello'}}}}" in
  let o := Strands.parseStreamingChunk line [] recorder [] in
  (exists json, decoded line = Some json
                /\ ~ converse_boundary json
                /\ delta_text json = Str (js "Hello"))
  /\ result o = Normal (js "Hello")
  /\ calls (trace o) = [js "Hello"].
Proof.
  cbv zeta.
  set (line := json_text "data: {'event':{'contentBlockDelta':{'delta':{'text':'Hello'}}}}").
  set (json := Obj [(js "event",
                     Obj [(js "contentBlockDelta",
                           Obj [(js "delta", Obj [(js "text", Str (js "Hello"))])])])]).
  assert (Hd : decoded line = Some json) by (vm_compute; reflexivity).
  assert (Hb : ~ converse_boundary json).
  { unfold converse_boundary. vm_compute. discriminate. }
  assert (Ht : delta_text json = Str (js "Hello")) by (vm_compute; reflexivity).
  split; [exists json; repeat split; assumption|].
  destruct (converse_text_delta line [] recorder [] json Hd Hb) as [_ H].
  destruct (H (js "Hello") Ht) as (Hcalls & _ & Hresult); [discriminate|].
  split; [apply Hresult; reflexivity | exact Hcalls].
Defined.

(** C7, as stated, fails. With null before a text block, the block filter
    reads a property of null and throws; the exception is caught and the
    buffer stays as it was, although the array holds a block of type text
    whose text is present. *)
Lemma null_block_aborts :
  let line := json_text
    "data: {'type':'AIMessageChunk','content':[null,{'type':'text','text':'Hi'}]}" in
  let cc := js "x" in
  let o := LangGraph.parseStreamingChunk line cc recorder [] in
  (exists json content,
      decoded line = Some json /\ langgraph_chunk json content
      /\ content <> [] /\ spec_concatenation content = js "Hi")
  /\ unchanged cc [] o
  /\ result o <> Normal (cc ++ js "Hi").
Proof.
  cbv zeta.
  set (line := json_text
    "data: {'type':'AIMessageChunk','content':[null,{'type':'text','text':'Hi'}]}").
  set (content := [Null; Obj [(js "type", Str (js "text")); (js "text", Str (js "Hi"))]]).
  set (json := Obj [(js "type", Str (js "AIMessageChunk")); (js "content", Arr content)]).
  assert (E : LangGraph.parseStreamingChunk line (js "x") recorder [] =
              Outcome (Normal (js "x")) []
                [ConsoleDebug failed_to_parse (trim (substring 6 line))])
    by (vm_compute; reflexivity).
  rewrite E.
  split; [|split].
  - exists json, content. split; [vm_compute; reflexivity|].
    split; [split; vm_compute; reflexivity|].
    split; [discriminate | vm_compute; reflexivity].
  - repeat split.
  - vm_compute. discriminate.
Qed.

(** Witness of C7: a tool_use block next to a text block. *)
Lemma langgraph_text_delta_witness :
  let line := json_text
    "data: {'type':'AIMessageChunk','content':[{'type':'tool_use'},{'type':'text','text':'Hi'}]}" in
  let cc := js "x" in
  let o := LangGraph.parseStreamingChunk line cc recorder [] in
  (exists json content,
      decoded line = Some json /\ langgraph_chunk json content /\ content <> []
      /\ Forall (fun block => nullish block = false /\ text_is_string block) content
      /\ spec_concatenation content = js "Hi")
  /\ result o = Normal (js "xHi")
  /\ calls (trace o) = [js "xHi"].
Proof.
  cbv zeta.
  set (line := json_text
    "data: {'type':'AIMessageChunk','content':[{'type':'tool_use'},{'type':'text','text':'Hi'}]}").
  set (content := [Obj [(js "type", Str (js "tool_use"))];
                   Obj [(js "type", Str (js "text")); (js "text", Str (js "Hi"))]]).
  set (json := Obj [(js "type", Str (js "AIMessageChunk")); (js "content", Arr content)]).
  assert (Hd : decoded line = Some json) by (vm_compute; reflexivity).
  assert (Hc : langgraph_chunk json content) by (split; vm_compute; reflexivity).
  assert (Hne : content <> []) by discriminate.
  assert (Hwf : Forall (fun block => nullish block = false /\ text_is_string block)
                  content).
  { constructor; [|constructor; [|constructor]]; (split; [reflexivity|]).
    - left. vm_compute. reflexivity.
    - right. exists (js "Hi"). vm_compute. reflexivity. }
  assert (Hs : spec_concatenation content = js "Hi") by (vm_compute; reflexivity).
  split; [exists json, content; repeat split; try assumption; apply Hc|].
  destruct (langgraph_text_delta line (js "x") recorder [] json content Hd Hc Hne)
    as [_ H].
  specialize (H Hwf). rewrite Hs in H.
  destruct H as (Hcalls & _ & Hresult).
  split; [apply Hresult; reflexivity | exact Hcalls].
Defined.

(** C8, as stated, fails. The two blocks of the claim carry no type, the
    filter drops both, and the call returns the empty buffer it was given
    without invoking the callback. *)
Lemma untyped_blocks_dropped :
  let line := json_text
    "data: {'type':'AIMessageChunk','content':[{'text':'Hi'},{'text':' there'}]}" in
  let o := LangGraph.parseStreamingChunk line [] recorder [] in
  result o = Normal []
  /\ trace o = []
  /\ result o <> Normal (js "Hi there").
Proof.
  cbv zeta.
  assert (E : LangGraph.parseStreamingChunk
                (json_text
                   "data: {'type':'AIMessageChunk','content':[{'text':'Hi'},{'text':' there'}]}")
                [] recorder [] = Outcome (Normal []) [] [])
    by (vm_compute; reflexivity).
  rewrite E. repeat split. discriminate.
Qed.

(** Witness of C9: the two boundary lines of the specification on the
    buffer Hello world. *)
Lemma boundary_equivalence_witness :
  let l1 := json_text "data: {'type':'AIMessageChunk','content':[]}" in
  let l2 := json_text "data: {'event':{'messageStart':{'role':'assistant'}}}" in
  let cc := js "Hello world" in
  let o1 := LangGraph.parseStreamingChunk l1 cc recorder [] in
  let o2 := Strands.parseStreamingChunk l2 cc recorder [] in
  (exists j1 j2, decoded l1 = Some j1 /\ langgraph_chunk j1 []
                 /\ decoded l2 = Some j2 /\ converse_boundary j2)
  /\ result o1 = result o2
  /\ calls (trace o1) = calls (trace o2)
  /\ world o1 = world o2.
Proof.
  cbv zeta.
  set (l1 := json_text "data: {'type':'AIMessageChunk','content':[]}").
  set (l2 := json_text "data: {'event':{'messageStart':{'role':'assistant'}}}").
  set (j1 := Obj [(js "type", Str (js "AIMessageChunk")); (js "content", Arr [])]).
  set (j2 := Obj [(js "event",
                   Obj [(js "messageStart",
                         Obj [(js "role", Str (js "assistant"))])])]).
  assert (H1 : decoded l1 = Some j1) by (vm_compute; reflexivity).
  assert (C1 : langgraph_chunk j1 []) by (split; vm_compute; reflexivity).
  assert (H2 : decoded l2 = Some j2) by (vm_compute; reflexivity).
  assert (C2 : converse_boundary j2) by (vm_compute; reflexivity).
  split; [exists j1, j2; repeat split; try assumption; apply C1|].
  destruct (boundary_equivalence (js "Hello world") recorder [] l1 l2 j1 j2
              H1 C1 H2 C2) as (Hr & Hc & Hw & _).
  repeat split; assumption.
Defined.

(** Witness of C10: a text delta given to a callback that throws. *)
Lemma callback_exception_swallowed_witness :
  let line := json_text "data: {'event':{'contentBlockDelta':{'delta':{'text':'Hello'}}}}" in
  let cc := js "abc" in
  let o := parseChunk Converse line cc thrower [] in
  result (parseChunk Converse line cc quiet tt) = Normal (js "abcHello")
  /\ result o = Normal cc
  /\ world o = [js "abcHello"]
  /\ calls (trace o) = [js "abcHello"].
Proof.
  cbv zeta.
  set (line := json_text "data: {'event':{'contentBlockDelta':{'delta':{'text':'Hello'}}}}").
  assert (Hq : result (parseChunk Converse line (js "abc") quiet tt) =
               Normal (js "abcHello")) by (vm_compute; reflexivity).
  assert (Hs : js "abcHello" <> js "abc") by (vm_compute; discriminate).
  destruct (callback_exception_swallowed Converse line (js "abc") thrower []
              (js "abcHello") (Thrown (Str (js "abcHello"))) [js "abcHello"]
              Hq Hs eq_refl) as (Hr & Hw & _ & data & Ht).
  split; [exact Hq|]. split; [exact Hr|]. split; [exact Hw|].
  rewrite Ht. reflexivity.
Defined.
